(** * The OCR document-processing pipeline of [app.py]

    A shallow embedding of the per-document state machine
    ([process_document]), its adapters ([analyze_document],
    [get_openai_response], [process_ocr_output], [get_metadata]), the batch
    driver ([process_documents]) and its HTTP trigger ([process_route]).

    The program talks to a document store, a file system, an HTTP server, an
    OCR service and a completion service.  The store and the file system are
    part of the state; the three remote services are oracles of a [World],
    indexed by the number of earlier calls, so that a service may answer
    differently each time it is asked.  Python exceptions are values of [exn]
    threaded through an exception-and-state monad, and every observable
    action is appended to a trace.

    What the model fixes:
    - the collection is the list of its records in store order; [update_one]
      and [find_one] act on the first record with the given [_id] and never
      raise; [find] returns the matching records as they are at the query;
    - a record has the fields the program reads or writes; [status] is one of
      the four states; [ocr_output] and [json_data] are lists of pages, a
      page being a dict from strings to strings;
    - the file system maps paths to contents; opening a missing file and
      removing one raise [FileNotFoundError], writing fails as the world
      says: at [open], and then no file is created, or after it, and then the
      file that [open] created is left, taken as empty;
    - a failure of a remote call is an exception of the class of its client
      library ([HTTPError], [OcrServiceError], [OpenAIError]);
    - [json.loads], [secure_filename] and the temporary directory are taken
      from the world; strings are byte strings. *)

From Stdlib Require Import ZArith Lia.
From Stdlib Require String Ascii.
From stdpp Require Import base option list gmap strings pretty.

#[local] Open Scope Z_scope.

(** ** Python values *)

(** What [json.loads] can return; [VNone] is Python's [None].  A number is
    kept as its literal text. *)
#[warnings="-register-all"]
Inductive value :=
| VNone
| VBool (b : bool)
| VNum (literal : string)
| VStr (s : string)
| VList (items : list value)
| VDict (items : list (string * value)).

(** The exception classes that occur; all of them derive from [Exception]. *)
Inductive exn_class :=
| ValueError
| JSONDecodeError
| KeyError
| IndexError
| UnboundLocalError
| FileNotFoundError
| OSError
| HTTPError
| OcrServiceError
| OpenAIError.

(** An exception: its class and [str(e)]. *)
Record exn := Exn { exn_cls : exn_class; exn_str : string }.

Inductive result (A : Type) :=
| Ok (a : A)
| Raise (e : exn).
Arguments Ok {A} a.
Arguments Raise {A} e.

#[global] Instance exn_class_eq_dec : EqDecision exn_class.
Proof. solve_decision. Defined.

(** ** The document store *)

Inductive ObjectId := Oid (hex : string).

Definition oid_str (o : ObjectId) : string := match o with Oid h => h end.

#[global] Instance ObjectId_eq_dec : EqDecision ObjectId.
Proof. solve_decision. Defined.

Inductive doc_status := notprocessed | processing | processed | failed.

#[global] Instance doc_status_eq_dec : EqDecision doc_status.
Proof. solve_decision. Defined.

(** One page of [ocr_output] or [json_data]: a dict, in insertion order. *)
Definition page := list (string * string).

(** A record of the collection.  An optional field is [None] when the key
    is absent. *)
Record document := {
  doc_id : ObjectId;
  doc_status_of : doc_status;
  doc_image : option string;
  doc_ocr_output : option (list page);
  doc_json_data : option (list page);
  doc_processed_date : option string;
  doc_final_assignment : option value;
  doc_final_release : option value
}.

(** One key of the [$set] document of an [update_one]. *)
Inductive field_set :=
| SetStatus (st : doc_status)
| SetOcrOutput (pages : list page)
| SetJsonData (pages : list page)
| SetProcessedDate (iso : string)
| SetFinalRelease (v : value)
| SetFinalAssignment (v : value).

Definition apply_set (d : document) (f : field_set) : document :=
  match f with
  | SetStatus st =>
      {| doc_id := doc_id d; doc_status_of := st; doc_image := doc_image d;
         doc_ocr_output := doc_ocr_output d; doc_json_data := doc_json_data d;
         doc_processed_date := doc_processed_date d;
         doc_final_assignment := doc_final_assignment d;
         doc_final_release := doc_final_release d |}
  | SetOcrOutput p =>
      {| doc_id := doc_id d; doc_status_of := doc_status_of d; doc_image := doc_image d;
         doc_ocr_output := Some p; doc_json_data := doc_json_data d;
         doc_processed_date := doc_processed_date d;
         doc_final_assignment := doc_final_assignment d;
         doc_final_release := doc_final_release d |}
  | SetJsonData p =>
      {| doc_id := doc_id d; doc_status_of := doc_status_of d; doc_image := doc_image d;
         doc_ocr_output := doc_ocr_output d; doc_json_data := Some p;
         doc_processed_date := doc_processed_date d;
         doc_final_assignment := doc_final_assignment d;
         doc_final_release := doc_final_release d |}
  | SetProcessedDate iso =>
      {| doc_id := doc_id d; doc_status_of := doc_status_of d; doc_image := doc_image d;
         doc_ocr_output := doc_ocr_output d; doc_json_data := doc_json_data d;
         doc_processed_date := Some iso;
         doc_final_assignment := doc_final_assignment d;
         doc_final_release := doc_final_release d |}
  | SetFinalRelease v =>
      {| doc_id := doc_id d; doc_status_of := doc_status_of d; doc_image := doc_image d;
         doc_ocr_output := doc_ocr_output d; doc_json_data := doc_json_data d;
         doc_processed_date := doc_processed_date d;
         doc_final_assignment := doc_final_assignment d;
         doc_final_release := Some v |}
  | SetFinalAssignment v =>
      {| doc_id := doc_id d; doc_status_of := doc_status_of d; doc_image := doc_image d;
         doc_ocr_output := doc_ocr_output d; doc_json_data := doc_json_data d;
         doc_processed_date := doc_processed_date d;
         doc_final_assignment := Some v;
         doc_final_release := doc_final_release d |}
  end.

Definition apply_sets (sets : list field_set) (d : document) : document :=
  fold_left apply_set sets d.

(** [update_one] changes the first record with the given [_id], if any. *)
Fixpoint store_update (id : ObjectId) (sets : list field_set) (c : list document)
  : list document :=
  match c with
  | [] => []
  | d :: rest =>
      if decide (doc_id d = id) then apply_sets sets d :: rest
      else d :: store_update id sets rest
  end.

(** [find_one] returns the first record with the given [_id]. *)
Fixpoint store_find_one (id : ObjectId) (c : list document) : option document :=
  match c with
  | [] => None
  | d :: rest => if decide (doc_id d = id) then Some d else store_find_one id rest
  end.

(** The filter of the batch driver:
    status in [notprocessed, processing, failed]. *)
Definition pending (d : document) : bool :=
  match doc_status_of d with
  | notprocessed | processing | failed => true
  | processed => false
  end.

(** ** The services *)

(** A role-tagged message of a completion request: (role, content). *)
Definition message := (string * string)%type.

(** One page of the OCR service's result. *)
Record ocr_page := { page_number : Z; lines : list string }.

Record http_response := {
  status_code : Z;
  content : string;
  status_error : string
}.

Inductive write_outcome :=
| WriteOk
| OpenFails (msg : string)
| WriteFails (msg : string).

Inductive schema := Assignment | Release.

(** The outside world.  An answer [inl msg] is a failure of the service
    with that text; the adapter raises it in the class of the client
    library.  The first argument of an oracle is the number of earlier calls
    of the same kind. *)
Record World := {
  http_get : nat -> string -> string + http_response;
  file_write : nat -> string -> write_outcome;
  ocr_service : nat -> string -> string + list ocr_page;
  completion : nat -> list message -> string + string;
  now_utc : nat -> string;
  json_loads : string -> string + value;
  secure_filename : string -> string;
  gettempdir : string
}.

(** What a run does, in order.  [EvExtract] marks the entry of
    [get_metadata_for_final_assignment] or [get_metadata_for_final_release]. *)
Inductive event :=
| EvUpdateOne (id : ObjectId) (sets : list field_set)
| EvFind
| EvFindOne (id : ObjectId)
| EvHttpGet (url : string)
| EvFileWrite (path : string)
| EvFileRead (path : string)
| EvRemove (path : string)
| EvAnalyze (bytes : string)
| EvCompletion (messages : list message)
| EvExtract (sch : schema)
| EvNow
| EvPrint (text : string).

Record state := {
  collection : list document;
  files : gmap string string;
  trace : list event
}.

Definition log (ev : event) (s : state) : state :=
  {| collection := collection s; files := files s; trace := trace s ++ [ev] |}.

Definition set_collection (c : list document) (s : state) : state :=
  {| collection := c; files := files s; trace := trace s |}.

Definition set_files (f : gmap string string) (s : state) : state :=
  {| collection := collection s; files := f; trace := trace s |}.

Definition is_http_get (ev : event) : bool :=
  match ev with EvHttpGet _ => true | _ => false end.
Definition is_file_write (ev : event) : bool :=
  match ev with EvFileWrite _ => true | _ => false end.
Definition is_analyze (ev : event) : bool :=
  match ev with EvAnalyze _ => true | _ => false end.
Definition is_completion (ev : event) : bool :=
  match ev with EvCompletion _ => true | _ => false end.
Definition is_now (ev : event) : bool :=
  match ev with EvNow => true | _ => false end.
Definition is_extract (sch : schema) (ev : event) : bool :=
  match ev, sch with
  | EvExtract Assignment, Assignment => true
  | EvExtract Release, Release => true
  | _, _ => false
  end.

Definition count (p : event -> bool) (t : list event) : nat :=
  length (filter (fun ev => p ev = true) t).

(** ** The monad: state and exceptions *)

Definition M (A : Type) : Type := state -> result A * state.

#[global] Instance M_ret : MRet M := fun A a s => (Ok a, s).

#[global] Instance M_bind : MBind M := fun A B k m s =>
  match m s with
  | (Ok a, s') => k a s'
  | (Raise e, s') => (Raise e, s')
  end.

Definition raise {A} (e : exn) : M A := fun s => (Raise e, s).

(** [try: body except Exception as e: handler e]. *)
Definition try_except {A} (body : M A) (handler : exn -> M A) : M A := fun s =>
  match body s with
  | (Ok a, s') => (Ok a, s')
  | (Raise e, s') => handler e s'
  end.

(** [try: body except cls as e: handler e]: other classes pass through. *)
Definition try_except_cls {A} (cls : exn_class) (body : M A) (handler : exn -> M A)
  : M A :=
  try_except body
    (fun e => if decide (exn_cls e = cls) then handler e else raise e).

(** [try: body finally: final].  The outcome of [body] (a value, also the
    value of a [return] inside it, or an exception) stands unless [final]
    raises. *)
Definition try_finally {A} (body : M A) (final : M unit) : M A := fun s =>
  match body s with
  | (r, s') =>
      match final s' with
      | (Ok _, s'') => (r, s'')
      | (Raise e, s'') => (Raise e, s'')
      end
  end.

Definition emit (ev : event) : M unit := fun s => (Ok tt, log ev s).

Definition print (text : string) : M unit := emit (EvPrint text).

(** ** Strings *)

Definition nl : string := String (Ascii.ascii_of_nat 10) EmptyString.
Definition dquote : string := String (Ascii.ascii_of_nat 34) EmptyString.
Definition slash : Ascii.ascii := Ascii.ascii_of_nat 47.
Definition backslash : string := String (Ascii.ascii_of_nat 92) EmptyString.

(** [str.isspace] on the ASCII range. *)
Definition is_space (c : Ascii.ascii) : bool :=
  let n := Ascii.nat_of_ascii c in
  ((9 <=? n)%nat && (n <=? 13)%nat) || ((28 <=? n)%nat && (n <=? 32)%nat).

Fixpoint lstrip (cs : list Ascii.ascii) : list Ascii.ascii :=
  match cs with
  | c :: rest => if is_space c then lstrip rest else cs
  | [] => []
  end.

(** [str.strip()]. *)
Definition strip (s : string) : string :=
  String.string_of_list_ascii
    (rev (lstrip (rev (lstrip (String.list_ascii_of_string s))))).

(** [os.path.basename]: what follows the last slash. *)
Fixpoint basename_from (s acc : string) : string :=
  match s with
  | EmptyString => acc
  | String c rest =>
      if Ascii.eqb c slash then basename_from rest EmptyString
      else basename_from rest (acc +:+ String c EmptyString)
  end.

Definition basename (path : string) : string := basename_from path EmptyString.

Fixpoint ends_with_slash (s : string) : bool :=
  match s with
  | EmptyString => false
  | String c EmptyString => Ascii.eqb c slash
  | String _ rest => ends_with_slash rest
  end.

(** [os.path.join] of two components. *)
Definition path_join (a b : string) : string :=
  match b with
  | String c _ =>
      if Ascii.eqb c slash then b
      else if ends_with_slash a then a +:+ b
      else match a with EmptyString => b | _ => a +:+ "/" +:+ b end
  | EmptyString =>
      if ends_with_slash a then a
      else match a with EmptyString => a | _ => a +:+ "/" end
  end.

(** The escapes of [json.dumps] that printable ASCII text can need. *)
Fixpoint json_escape (s : string) : string :=
  match s with
  | EmptyString => EmptyString
  | String c rest =>
      (if Ascii.eqb c (Ascii.ascii_of_nat 34) then backslash +:+ dquote
       else if Ascii.eqb c (Ascii.ascii_of_nat 92) then backslash +:+ backslash
       else String c EmptyString) +:+ json_escape rest
  end.

Definition json_string (s : string) : string := dquote +:+ json_escape s +:+ dquote.

(** [json.dumps(fields, indent=2)] for a dict from strings to strings. *)
Definition json_dumps_indent2 (fields : list (string * string)) : string :=
  match fields with
  | [] => "{}"
  | _ =>
      "{" +:+ nl +:+
      String.concat ("," +:+ nl)
        (map (fun kv => "  " +:+ json_string kv.1 +:+ ": " +:+ json_string kv.2) fields)
      +:+ nl +:+ "}"
  end.

(** ** The store, the file system and the services as actions *)

Section Program.

Variable W : World.

(** [collection.update_one({"_id": id}, {"$set": sets})]. *)
Definition update_one (id : ObjectId) (sets : list field_set) : M unit := fun s =>
  (Ok tt, log (EvUpdateOne id sets) (set_collection (store_update id sets (collection s)) s)).

(** [collection.find_one({"_id": ObjectId(object_id)})]; [object_id] is an
    [ObjectId] already, which the constructor returns unchanged. *)
Definition find_one (object_id : ObjectId) : M (option document) := fun s =>
  (Ok (store_find_one object_id (collection s)), log (EvFindOne object_id) s).

(** [collection.find({"status": {"$in": [...]}})]. *)
Definition find_pending : M (list document) := fun s =>
  (Ok (filter (fun d => pending d = true) (collection s)), log EvFind s).

(** [httpx.get(url)]. *)
Definition httpx_get (url : string) : M http_response := fun s =>
  let n := count is_http_get (trace s) in
  match http_get W n url with
  | inr response => (Ok response, log (EvHttpGet url) s)
  | inl msg => (Raise (Exn HTTPError msg), log (EvHttpGet url) s)
  end.

(** [response.raise_for_status()]: any status outside 2xx raises. *)
Definition raise_for_status (response : http_response) : M unit :=
  if (200 <=? status_code response) && (status_code response <=? 299) then mret tt
  else raise (Exn HTTPError (status_error response)).

(** [with open(path, 'wb') as file: file.write(data)].  When the write
    fails after the file was opened, the file exists, empty. *)
Definition write_file (path data : string) : M unit := fun s =>
  let n := count is_file_write (trace s) in
  match file_write W n path with
  | WriteOk => (Ok tt, log (EvFileWrite path) (set_files (<[path := data]> (files s)) s))
  | OpenFails msg => (Raise (Exn OSError msg), log (EvFileWrite path) s)
  | WriteFails msg =>
      (Raise (Exn OSError msg),
       log (EvFileWrite path) (set_files (<[path := EmptyString]> (files s)) s))
  end.

(** [with open(path, "rb") as f: f.read()]. *)
Definition read_file (path : string) : M string := fun s =>
  match files s !! path with
  | Some data => (Ok data, log (EvFileRead path) s)
  | None =>
      (Raise (Exn FileNotFoundError
                ("[Errno 2] No such file or directory: '" +:+ path +:+ "'")),
       log (EvFileRead path) s)
  end.

(** [os.remove(path)]. *)
Definition os_remove (path : string) : M unit := fun s =>
  match files s !! path with
  | Some _ => (Ok tt, log (EvRemove path) (set_files (delete path (files s)) s))
  | None =>
      (Raise (Exn FileNotFoundError
                ("[Errno 2] No such file or directory: '" +:+ path +:+ "'")),
       log (EvRemove path) s)
  end.

(** [document_analysis_client.begin_analyze_document("prebuilt-document",
    document=bytes)] followed by [poller.result()]: the pages of the result. *)
Definition begin_analyze_document (bytes : string) : M (list ocr_page) := fun s =>
  let n := count is_analyze (trace s) in
  match ocr_service W n bytes with
  | inr pages => (Ok pages, log (EvAnalyze bytes) s)
  | inl msg => (Raise (Exn OcrServiceError msg), log (EvAnalyze bytes) s)
  end.

(** [client.chat.completions.create(messages=..., model="gpt-3.5-turbo",
    max_tokens=2000).choices[0].message.content]. *)
Definition chat_completions_create (messages : list message) : M string := fun s =>
  let n := count is_completion (trace s) in
  match completion W n messages with
  | inr text => (Ok text, log (EvCompletion messages) s)
  | inl msg => (Raise (Exn OpenAIError msg), log (EvCompletion messages) s)
  end.

(** [datetime.now(pytz.timezone('UTC')).isoformat()]. *)
Definition now_isoformat : M string := fun s =>
  (Ok (now_utc W (count is_now (trace s))), log EvNow s).

(** [json.loads(text)]. *)
Definition loads (text : string) : M value :=
  match json_loads W text with
  | inr v => mret v
  | inl msg => raise (Exn JSONDecodeError msg)
  end.

(** [list(d.values())[0]] and [list(d.keys())[0]]. *)
Definition first_value (p : page) : M string :=
  match p with
  | (_, v) :: _ => mret v
  | [] => raise (Exn IndexError "list index out of range")
  end.

Definition first_key (p : page) : M string :=
  match p with
  | (k, _) :: _ => mret k
  | [] => raise (Exn IndexError "list index out of range")
  end.

(** ** The adapters *)

(** The entry [{str(page.page_number - 1): " ".join(line.content ...)}] that
    [analyze_document] appends for one page. *)
Definition page_entry (p : ocr_page) : page :=
  [(pretty (page_number p - 1), String.concat " " (lines p))].

Definition analyze_document (document_path : string) : M (list page) :=
  try_except
    (bytes ← read_file document_path;
     pages ← begin_analyze_document bytes;
     mret (map page_entry pages))
    (fun e => print ("Error during document analysis: " +:+ exn_str e);; raise e).

Definition get_openai_response (messages : list message) : M string :=
  try_except
    (text ← chat_completions_create messages;
     mret (strip text))
    (fun e => print ("Error fetching response from OpenAI: " +:+ exn_str e);; raise e).

Definition correction_system : string :=
  "You are a helpful assistant that fixes errors in OCR outputs and provides correct data in the same JSON format.".

Definition correction_messages (page_content : string) : list message :=
  [ ("system", correction_system);
    ("user", "Fix the errors and get correct data in same JSON format:" +:+ nl +:+ page_content) ].

(** The loop of [process_ocr_output]; [corrected_output_parts] is the list
    built so far. *)
Fixpoint correct_pages (ocr_output : list page) (corrected_output_parts : list page)
  : M (list page) :=
  match ocr_output with
  | [] => mret corrected_output_parts
  | p :: rest =>
      page_content ← first_value p;
      response ← get_openai_response (correction_messages page_content);
      key ← first_key p;
      correct_pages rest (corrected_output_parts ++ [[(key, response)]])
  end.

Definition process_ocr_output (ocr_output : list page) : M (list page) :=
  try_except_cls JSONDecodeError
    (correct_pages ocr_output [])
    (fun e => print ("Error parsing corrected JSON: " +:+ exn_str e);; raise e).

Definition extraction_system : string :=
  "You are a helpful assistant that extracts specific information from document content.".

Definition extraction_messages (combined_content : string) (fields : list (string * string))
  : list message :=
  [ ("system", extraction_system);
    ("user",
     "Extract the following information from this content, filling in the values for each field:"
       +:+ nl +:+ combined_content +:+ nl +:+ nl +:+ "Fields: "
       +:+ json_dumps_indent2 fields) ].

(** [[list(page.values())[0] for page in json_data]]. *)
Fixpoint first_values (json_data : list page) : M (list string) :=
  match json_data with
  | [] => mret []
  | p :: rest =>
      v ← first_value p;
      vs ← first_values rest;
      mret (v :: vs)
  end.

Definition get_metadata (object_id : ObjectId) (fields : list (string * string)) : M value :=
  document ← find_one object_id;
  match document with
  | None => raise (Exn ValueError ("Document not found: " +:+ oid_str object_id))
  | Some document =>
      let json_data := default [] (doc_json_data document) in
      contents ← first_values json_data;
      let combined_content := String.concat " " contents in
      let messages := extraction_messages combined_content fields in
      try_except_cls JSONDecodeError
        (response ← get_openai_response messages;
         loads response)
        (fun e =>
           print ("Failed to parse OpenAI response for metadata : " +:+ exn_str e);;
           mret VNone)
  end.
Definition final_assignment_fields : list (string * string) :=
  [ ("Record Type 'Z'", "");
    ("Document Type (Must be populated with one of the valid codes)", "");
    ("FIPS Code", "");
    ("MERS Indicator (ASSIGNEE)", "");
    ("RECORD ID M = MAIN Record (default value for all non-addendum records) A = APN Addendum; D= DOT Addendum", "");
    ("Assignment Recording Date", "");
    ("Assignment EFFECTIVE or CONTRACT Date.", "");
    ("Assignment Document Number (also known as:  Reception No, Instrument No.)", "");
    ("Assignment Book Number", "");
    ("Assignment Page Number", "");
    ("Multiple Page Image Flag", "");
    ("LPS Image Identifier", "");
    ("Original Deed of Trust ('DOT') Recording Date", "");
    ("Original Deed of Trust ('DOT') Contract Date", "");
    ("Original Deed of Trust('DOT') Document Number", "");
    ("Original Deed of Trust ('DOT') Book Number", "");
    ("Original Deed of Trust ('DOT') Page Number", "");
    ("Original Beneficiary/Lender/Mortgagee/In Favor of/Made By", "");
    ("Original Loan Amount", "");
    ("Assignor Name(s) ", "");
    ("Loan Number", "");
    ("Assignee(s) (Lender(s) receiving right, title & interest in the Deed of Trust or Mortgage)", "");
    ("MERS (MIN) Number", "");
    ("MERS NUMBER  PASS VALIDATION", "");
    ("Assignee / Pool", "");
    ("MSP Servicer Number and Loan Number", "");
    ("Borrower Name(s)/Corporation(s)", "");
    ("Assessor Parcel Number (APN, PIN, PID)", "");
    ("Multiple APN Code", "");
    ("Tax Acct ID", "");
    ("Property: Full Street Address-  (Look for phrases such as `Commonly known as`)", "");
    ("Property: Unit #", "");
    ("Property: City Name", "");
    ("Property: State", "");
    ("Property: Zip", "");
    ("Property: Zip + 4", "");
    ("Data Entry Date", "");
    ("Data Entry Operator Code", "");
    ("Vendor Source Code", "") ].

Definition final_release_fields : list (string * string) :=
  [ ("Record Type", "");
    ("Document Type (Must be populated with one of the valid codes)", "");
    ("FIPS Code", "");
    ("RECORD ID M = MAIN Record (default value for all non-addendum records); A = APN Addendum; D= DOT Addendum", "");
    ("Release Recording Date", "");
    ("Release Contract Date or Effective Date ", "");
    ("(Mortgage) Payoff Date (P.O. Date)", "");
    ("Release Document Number (Instrument, Reception No)", "");
    ("Release Book Number (Folio, Liber,Volume)", "");
    ("Release Page Number", "");
    ("Multiple Page Image Flag", "");
    ("LPS Image Identifier", "");
    ("Original Deed of Trust ('DOT') Recording Date", "");
    ("Original Deed of Trust ('DOT') Contract Date", "");
    ("Original Deed of Trust('DOT') Document Number", "");
    ("Original Deed of Trust ('DOT') Book Number", "");
    ("Original Deed of Trust ('DOT') Page Number", "");
    ("Original Beneficiary/Lender/Mortgagee", "");
    ("Original Loan Amount", "");
    ("Loan Number", "");
    ("Current Beneficiary/Lender/Mortgagee", "");
    ("MERS (MIN) Number", "");
    ("MERS NUMBER  PASS VALIDATION", "");
    ("MSP Servicer Number and Loan Number", "");
    ("Current Lender 'Pool'", "");
    ("Borrower Name(s)/Corporation(s)", "");
    ("Borrower Mail Full Street Address ", "");
    ("Borrower Mail Unit", "");
    ("Borrower Mail City Name", "");
    ("Borrower Mail State", "");
    ("Borrower Mail Zip", "");
    ("Borrower Mail Zip + 4", "");
    ("Assessor Parcel Number (APN, PID, PIN)", "");
    ("Multiple APN Code", "");
    ("Tax Acct ID", "");
    ("Property: Full Street Address-  (Look for phrases such as `Commonly known as`)", "");
    ("Property: Unit #", "");
    ("Property: City Name", "");
    ("Property: State", "");
    ("Property: Zip", "");
    ("Property: Zip + 4", "");
    ("Data Entry Date", "");
    ("Data Entry Operator Code", "");
    ("Vendor Source Code", "") ].

(** Entering either wrapper is recorded in the trace, so that the calls of
    the extraction adapter can be counted per schema. *)
Definition get_metadata_for_final_assignment (object_id : ObjectId) : M value :=
  emit (EvExtract Assignment);;
  get_metadata object_id final_assignment_fields.

Definition get_metadata_for_final_release (object_id : ObjectId) : M value :=
  emit (EvExtract Release);;
  get_metadata object_id final_release_fields.

(** ** The document state machine *)

(** How a block of [process_document] ends: it falls through to the next
    statement, or it executed [return]. *)
Inductive flow := Continue | Returned.

(** [doc["image"]]. *)
Definition doc_getitem_image (doc : document) : M string :=
  match doc_image doc with
  | Some url => mret url
  | None => raise (Exn KeyError "'image'")
  end.

(** Reading a local name that may never have been assigned (the text of
    the error is that of CPython 3.11 and later). *)
Definition read_local (name : string) (v : option value) : M value :=
  match v with
  | Some x => mret x
  | None =>
      raise (Exn UnboundLocalError
               ("cannot access local variable '" +:+ name
                  +:+ "' where it is not associated with a value"))
  end.

(** The branch [if ocr_output:]. *)
Definition process_cached (doc : document) (ocr_output : list page) : M flow :=
  let extracted_data := ocr_output in
  processed_data ← process_ocr_output extracted_data;
  update_one (doc_id doc) [SetOcrOutput extracted_data; SetJsonData processed_data];;
  mret Continue.

(** The [try ... except ...] of the [else:] branch. *)
Definition ocr_attempt (doc : document) (temp_file_path : string) : M flow :=
  try_except
    (extracted_data ← analyze_document temp_file_path;
     match extracted_data with
     | [] =>
         update_one (doc_id doc) [SetStatus failed];;
         print ("No data extracted for document " +:+ oid_str (doc_id doc));;
         mret Returned
     | _ =>
         processed_data ← process_ocr_output extracted_data;
         update_one (doc_id doc)
           [SetOcrOutput extracted_data; SetJsonData processed_data];;
         mret Continue
     end)
    (fun e =>
       print ("Document analysis(OCR) failed for the document "
                +:+ oid_str (doc_id doc) +:+ ": " +:+ exn_str e);;
       update_one (doc_id doc) [SetStatus failed];;
       mret Returned).

(** ... with its [finally: os.remove(temp_file_path)]. *)
Definition ocr_and_correct (doc : document) (temp_file_path : string) : M flow :=
  try_finally (ocr_attempt doc temp_file_path) (os_remove temp_file_path).

(** The branch [else:]. *)
Definition process_uncached (doc : document) : M flow :=
  image ← doc_getitem_image doc;
  let temp_file_path := path_join (gettempdir W) (secure_filename W (basename image)) in
  response ← httpx_get image;
  raise_for_status response;;
  write_file temp_file_path (content response);;
  ocr_and_correct doc temp_file_path.

(** One metadata call with its single retry.  [None] is the local name left
    unassigned, when both attempts raised. *)
Definition extract_with_retry (call : M value) (name : string) (object_id : ObjectId)
  : M (option value) :=
  try_except
    (v ← call; mret (Some v))
    (fun e =>
       print ("Error getting " +:+ name +:+ " for document "
                +:+ oid_str object_id +:+ ": " +:+ exn_str e);;
       try_except
         (v ← call; mret (Some v))
         (fun e =>
            print ("Retry failed for " +:+ name +:+ " for document "
                     +:+ oid_str object_id +:+ ": " +:+ exn_str e);;
            mret None)).

(** From [processed_date = ...] to the last [update_one]. *)
Definition extract_and_finish (doc : document) : M unit :=
  processed_date ← now_isoformat;
  let object_id := doc_id doc in
  final_assignment ←
    extract_with_retry (get_metadata_for_final_assignment object_id)
      "final_assignment" object_id;
  final_release ←
    extract_with_retry (get_metadata_for_final_release object_id)
      "final_release" object_id;
  final_release_value ← read_local "final_release" final_release;
  final_assignment_value ← read_local "final_assignment" final_assignment;
  update_one (doc_id doc)
    [ SetStatus processed; SetProcessedDate processed_date;
      SetFinalRelease final_release_value; SetFinalAssignment final_assignment_value ].

(** What follows the first [update_one] inside the outer [try]. *)
Definition process_document_steps (doc : document) : M unit :=
  go ← match doc_ocr_output doc with
       | Some (p :: rest) => process_cached doc (p :: rest)
       | _ => process_uncached doc
       end;
  match go with
  | Returned => mret tt
  | Continue => extract_and_finish doc
  end.

(** The outer [except Exception as e:]. *)
Definition mark_failed (doc : document) (e : exn) : M unit :=
  print ("Processing failed for document " +:+ oid_str (doc_id doc)
           +:+ ": " +:+ exn_str e);;
  update_one (doc_id doc) [SetStatus failed].

Definition process_document (doc : document) : M unit :=
  try_except
    (update_one (doc_id doc) [SetStatus processing];;
     process_document_steps doc)
    (mark_failed doc).

(** ** The batch driver *)

Fixpoint for_each (documents : list document) (body : document -> M unit) : M unit :=
  match documents with
  | [] => mret tt
  | doc :: rest => body doc;; for_each rest body
  end.

Definition process_documents : M unit :=
  documents ← find_pending;
  for_each documents process_document.

End Program.

(** ** The HTTP surface *)

(** A [JSONResponse]: its content, a dict from strings to strings, and its
    status code. *)
Record JSONResponse := {
  response_content : list (string * string);
  response_status : Z
}.

(** [GET /]. *)
Definition read_root : list (string * string) := [("status", "success")].

(** [POST /process]. *)
Definition process_route (W : World) : M JSONResponse :=
  process_documents W;;
  mret {| response_content := [("message", "Documents processed successfully")];
          response_status := 200 |}.

(** ** Specification vocabulary *)

(** [wp m Q s]: running [m] from [s] ends in an outcome and a state that
    satisfy [Q]. *)
Definition wp {A} (m : M A) (Q : result A -> state -> Prop) (s : state) : Prop :=
  Q (m s).1 (m s).2.

(** [keeps T m]: every run of [m] relates its first state to its last by [T]. *)
Definition keeps (T : state -> state -> Prop) {A} (m : M A) : Prop :=
  forall s, T s (m s).2.

Definition same_collection (s s' : state) : Prop := collection s' = collection s.

Definition same_files (s s' : state) : Prop := files s' = files s.

(** Only the record [id] may differ, and no record changes its [_id]. *)
Definition touch (id : ObjectId) (s s' : state) : Prop :=
  Forall2 (fun d d' => doc_id d' = doc_id d /\ (doc_id d <> id -> d' = d))
    (collection s) (collection s').

(** The trace grows by events that satisfy [p]. *)
Definition emits (p : event -> Prop) (s s' : state) : Prop :=
  exists t, trace s' = trace s ++ t /\ Forall p t.

(** The stored status of [id] is [processed] or [failed]. *)
Definition settled (id : ObjectId) (s : state) : Prop :=
  forall d, store_find_one id (collection s) = Some d ->
    doc_status_of d = processed \/ doc_status_of d = failed.

Definition is_ok {A} (r : result A) : Prop :=
  match r with Ok _ => True | Raise _ => False end.

(** [admits T ev]: appending [ev] to the trace is a [T]-step. *)
Definition admits (T : state -> state -> Prop) (ev : event) : Prop :=
  forall s, T s (log ev s).

(** What [extract_and_finish] does besides printing. *)
Definition finish_steps (T : state -> state -> Prop) (doc : document) : Prop :=
  admits T EvNow /\
  (forall sch, admits T (EvExtract sch)) /\
  admits T (EvFindOne (doc_id doc)) /\
  (forall c f, admits T (EvCompletion (extraction_messages c f))) /\
  (forall iso fr fa,
     keeps T (update_one (doc_id doc)
                [ SetStatus processed; SetProcessedDate iso;
                  SetFinalRelease fr; SetFinalAssignment fa ])).

(** What the branch on a cached [ocr_output] does besides printing. *)
Definition cached_steps (T : state -> state -> Prop) (doc : document)
    (ocr_output : list page) : Prop :=
  (forall k v rest, (k, v) :: rest ∈ ocr_output ->
     admits T (EvCompletion (correction_messages v))) /\
  (forall json_data,
     keeps T (update_one (doc_id doc)
                [SetOcrOutput ocr_output; SetJsonData json_data])).

Definition any_event (ev : event) : Prop := True.

(** Not the entry of a call of the extraction adapter for schema [sch]. *)
Definition not_extract (sch : schema) (ev : event) : Prop := is_extract sch ev = false.

(** [q] has one key, the first key of [p]. *)
Definition same_page_key (p q : page) : Prop :=
  exists k v rest r, p = (k, v) :: rest /\ q = [(k, r)].

(** An update that sets [ocr_output] and [json_data] sets them aligned. *)
Definition persists_aligned (ev : event) : Prop :=
  match ev with
  | EvUpdateOne _ sets =>
      forall o j, SetOcrOutput o ∈ sets -> SetJsonData j ∈ sets ->
        Forall2 same_page_key o j
  | _ => True
  end.

(** [list(page.values())[0]], when the page has an entry. *)
Definition page_text (p : page) : option string :=
  match p with
  | (_, v) :: _ => Some v
  | [] => None
  end.

(** The events of a run on a document whose [ocr_output] is the cached
    list [l]: no download, no file, no OCR; a completion request is the
    correction prompt of a cached page or an extraction prompt; an update
    writes to the document and, if it sets [ocr_output], sets it to [l]. *)
Definition cached_event (id : ObjectId) (l : list page) (ev : event) : Prop :=
  match ev with
  | EvUpdateOne i sets => i = id /\ forall o, SetOcrOutput o ∈ sets -> o = l
  | EvCompletion messages =>
      (exists k v rest, (k, v) :: rest ∈ l /\ messages = correction_messages v) \/
      (exists c f, messages = extraction_messages c f)
  | EvFindOne _ | EvExtract _ | EvNow | EvPrint _ => True
  | EvFind | EvHttpGet _ | EvFileWrite _ | EvFileRead _ | EvRemove _
  | EvAnalyze _ => False
  end.

(** [image] stays, and an [ocr_output] equal to [l] stays equal to [l]. *)
Definition cache_kept (l : list page) (d d' : document) : Prop :=
  doc_image d' = doc_image d /\
  (doc_ocr_output d = Some l -> doc_ocr_output d' = Some l).

Definition keeps_cache (l : list page) (s s' : state) : Prop :=
  Forall2 (fun d d' => doc_id d' = doc_id d /\ cache_kept l d d')
    (collection s) (collection s').

(** The path of the temporary file of a document image. *)
Definition temp_path (W : World) (url : string) : string :=
  path_join (gettempdir W) (secure_filename W (basename url)).

(** The state in which [ocr_and_correct] starts when the download and the
    write of the temporary file succeeded. *)
Definition after_download (W : World) (doc : document) (url : string)
    (response : http_response) (s : state) : state :=
  log (EvFileWrite (temp_path W url))
    (set_files (<[temp_path W url := content response]> (files s))
       (log (EvHttpGet url) (update_one (doc_id doc) [SetStatus processing] s).2)).

(** Only the records with an [_id] of [ids] may differ. *)
Definition touch_in (ids : list ObjectId) (s s' : state) : Prop :=
  Forall2 (fun d d' => doc_id d' = doc_id d /\ (doc_id d ∉ ids -> d' = d))
    (collection s) (collection s').

(** The documents whose processing starts in a trace, in order: the
    [_id] of each update that sets the status [processing] and nothing else. *)
Definition started (t : list event) : list ObjectId :=
  omap (fun ev => match ev with
                  | EvUpdateOne id [SetStatus processing] => Some id
                  | _ => None
                  end) t.

(** Not the first write of a run. *)
Definition not_start (ev : event) : Prop :=
  match ev with
  | EvUpdateOne _ [SetStatus processing] => False
  | _ => True
  end.

(** The completion requests of a trace, in order. *)
Definition requests (t : list event) : list (list message) :=
  omap (fun ev => match ev with
                  | EvCompletion messages => Some messages
                  | _ => None
                  end) t.

(** The record holds OCR pages and their corrections, aligned. *)
Definition paged_record (d : document) : Prop :=
  exists o j,
    doc_ocr_output d = Some o /\ o <> [] /\
    doc_json_data d = Some j /\ Forall2 same_page_key o j.

(** The record is [processed] and holds everything a run stores. *)
Definition complete_record (d : document) : Prop :=
  doc_status_of d = processed /\
  paged_record d /\
  is_Some (doc_processed_date d) /\
  is_Some (doc_final_assignment d) /\
  is_Some (doc_final_release d).

Definition paged (id : ObjectId) (s : state) : Prop :=
  forall d, store_find_one id (collection s) = Some d -> paged_record d.

Definition status_failed (id : ObjectId) (s : state) : Prop :=
  forall d, store_find_one id (collection s) = Some d -> doc_status_of d = failed.

(** The stored record of [id] is [failed], or [processed] and complete. *)
Definition failed_or_complete (id : ObjectId) (s : state) : Prop :=
  forall d, store_find_one id (collection s) = Some d ->
    doc_status_of d = failed \/ complete_record d.

(** No record changes its [_id], its [processed_date] or its field maps. *)
Definition metadata_kept (s s' : state) : Prop :=
  Forall2
    (fun d d' =>
       doc_id d' = doc_id d /\
       doc_processed_date d' = doc_processed_date d /\
       doc_final_assignment d' = doc_final_assignment d /\
       doc_final_release d' = doc_final_release d)
    (collection s) (collection s').

Definition status_processed (id : ObjectId) (s : state) : Prop :=
  forall d, store_find_one id (collection s) = Some d -> doc_status_of d = processed.

(** The state a run on [doc] from [s] ends in when it fails with the text
    [msg] after the events [evs] that follow the first write, leaving the
    files [fs]. *)
Definition failed_run (doc : document) (s : state) (evs : list event) (msg : string)
    (fs : gmap string string) : state :=
  {| collection :=
       store_update (doc_id doc) [SetStatus failed]
         (store_update (doc_id doc) [SetStatus processing] (collection s));
     files := fs;
     trace :=
       trace s ++
         EvUpdateOne (doc_id doc) [SetStatus processing] ::
         evs ++
         [ EvPrint ("Processing failed for document " +:+ oid_str (doc_id doc)
                      +:+ ": " +:+ msg);
           EvUpdateOne (doc_id doc) [SetStatus failed] ] |}.

(** The state in which text correction starts on the OCR branch, when the
    download, the file write and the OCR call succeeded. *)
Definition after_ocr (W : World) (doc : document) (url : string)
    (response : http_response) (s : state) : state :=
  log (EvAnalyze (content response))
    (log (EvFileRead (temp_path W url)) (after_download W doc url response s)).

(** The stored record of [id] is [d0] with some status, nothing else
    changed. *)
Definition at_status (d0 : document) (id : ObjectId) (s : state) : Prop :=
  exists st, store_find_one id (collection s) = Some (apply_set d0 (SetStatus st)).

(** The outcome of a block of the OCR branch when nothing but the status
    was written: it did not fall through, and if it returned the status is
    [failed]. *)
Definition stopped (d0 : document) (id : ObjectId) (r : result flow) (s : state) : Prop :=
  match r with
  | Ok Continue => False
  | Ok Returned =>
      store_find_one id (collection s) = Some (apply_set d0 (SetStatus failed))
  | Raise _ => at_status d0 id s
  end.

(** From [s] to [s'] the extraction adapter was entered at most [n] times
    for the schema [sch]. *)
Definition tries (sch : schema) (n : nat) (s s' : state) : Prop :=
  exists t, trace s' = trace s ++ t /\ (count (is_extract sch) t <= n)%nat.

(** What one call of the adapter for [sch'] counts for [sch]. *)
Definition weight (sch sch' : schema) : nat :=
  if is_extract sch (EvExtract sch') then 1%nat else 0%nat.

(** ** Sample worlds and records *)

(** A stand-in for [json.loads] that knows two texts. *)
Definition sample_loads (text : string) : string + value :=
  if decide (text = "{}") then inr (VDict [])
  else if decide (text = "null") then inr VNone
  else inl "Expecting value: line 1 column 1 (char 0)".

(** A world whose download and file write succeed, whose OCR service
    answers [ocr] and whose n-th completion is [llm n]. *)
Definition sample_world (ocr : string + list ocr_page) (llm : nat -> string + string)
  : World :=
  {| http_get := fun _ _ =>
       inr {| status_code := 200; content := "%PDF-1.4"; status_error := "" |};
     file_write := fun _ _ => WriteOk;
     ocr_service := fun _ _ => ocr;
     completion := fun n _ => llm n;
     now_utc := fun _ => "2024-05-01T10:00:00+00:00";
     json_loads := sample_loads;
     secure_filename := fun name => name;
     gettempdir := "/tmp" |}.

(** An OCR result of one page with two lines. *)
Definition one_page : list ocr_page := [ {| page_number := 1; lines := ["raw"; "text"] |} ].

(** Every completion succeeds: the first is a corrected page, the others
    are empty field maps. *)
Definition llm_fine (n : nat) : string + string :=
  match n with
  | O => inr " clean text "
  | _ => inr "{}"
  end.

(** After the correction of one page, both attempts for [final_assignment]
    fail. *)
Definition llm_assignment_down (n : nat) : string + string :=
  match n with
  | O => inr " clean text "
  | 1%nat | 2%nat => inl "Connection error."
  | _ => inr "{}"
  end.

(** After the correction of one page, the first attempt for
    [final_assignment] fails and the retry succeeds. *)
Definition llm_assignment_flaky (n : nat) : string + string :=
  match n with
  | O => inr " clean text "
  | 1%nat => inl "Connection error."
  | _ => inr "{}"
  end.

(** The first completion fails, the others are empty field maps. *)
Definition llm_first_down (n : nat) : string + string :=
  match n with
  | O => inl "Connection error."
  | _ => inr "{}"
  end.

Definition flaky_world : World := sample_world (inr one_page) llm_first_down.

(** A world with these answers to the download and to the file write. *)
Definition download_world (http : string + http_response) (fw : write_outcome) : World :=
  {| http_get := fun _ _ => http;
     file_write := fun _ _ => fw;
     ocr_service := fun _ _ => inr one_page;
     completion := fun n _ => llm_fine n;
     now_utc := fun _ => "2024-05-01T10:00:00+00:00";
     json_loads := sample_loads;
     secure_filename := fun name => name;
     gettempdir := "/tmp" |}.

(** A record with neither [image] nor OCR output. *)
Definition bare_doc : document :=
  {| doc_id := Oid "665f1c2ab7e4d90a1c3e5f03";
     doc_status_of := notprocessed;
     doc_image := None;
     doc_ocr_output := None;
     doc_json_data := None;
     doc_processed_date := None;
     doc_final_assignment := None;
     doc_final_release := None |}.

Definition not_found_response : http_response :=
  {| status_code := 404; content := "";
     status_error := "Client error '404 Not Found' for url 'http://x/doc.png'" |}.

(** The completion service is down. *)
Definition llm_down (n : nat) : string + string := inl "Connection error.".

Definition outage_world : World := sample_world (inr one_page) llm_down.

(** Completions that are not JSON. *)
Definition llm_prose (n : nat) : string + string := inr "I could not find the fields.".

(** A record as ingestion creates it. *)
Definition fresh_doc : document :=
  {| doc_id := Oid "665f1c2ab7e4d90a1c3e5f01";
     doc_status_of := notprocessed;
     doc_image := Some "http://x/doc.png";
     doc_ocr_output := None;
     doc_json_data := None;
     doc_processed_date := None;
     doc_final_assignment := None;
     doc_final_release := None |}.

(** A record whose OCR output is stored from an earlier run. *)
Definition cached_doc : document :=
  {| doc_id := Oid "665f1c2ab7e4d90a1c3e5f02";
     doc_status_of := failed;
     doc_image := None;
     doc_ocr_output := Some [[("0", "raw text")]];
     doc_json_data := None;
     doc_processed_date := None;
     doc_final_assignment := None;
     doc_final_release := None |}.

(** The state with these records, no file and an empty trace. *)
Definition store_of (docs : list document) : state :=
  {| collection := docs; files := ∅; trace := [] |}.

(** A store with a record that is already [processed] and one that is not. *)
Definition mixed_store : state :=
  store_of [apply_set fresh_doc (SetStatus processed); cached_doc].

(** The record [cached_doc] with these corrected pages. *)
Definition corrected_doc (json_data : list page) : document :=
  apply_set cached_doc (SetJsonData json_data).

(** Worlds for the runs below. *)
Definition fine_world : World := sample_world (inr one_page) llm_fine.

Definition ocr_down_world : World := sample_world (inl "Service unavailable") llm_fine.

Definition sample_response : http_response :=
  {| status_code := 200; content := "%PDF-1.4"; status_error := "" |}.

Definition no_pages_world : World := sample_world (inr []) llm_fine.

Definition prose_world : World := sample_world (inr one_page) llm_prose.

(** The temporary file is there, nothing else. *)
Definition downloaded_state : state :=
  {| collection := []; files := {["/tmp/doc.png" := "%PDF-1.4"]}; trace := [] |}.

Definition json_world : World := sample_world (inr one_page) (fun _ => inr "{}").

(** ** Rules of the monad *)

Lemma wp_ret {A} (a : A) Q s : Q (Ok a) s -> wp (mret a) Q s.
Proof. done. Qed.

Lemma wp_raise {A} (e : exn) (Q : result A -> state -> Prop) s :
  Q (Raise e) s -> wp (raise e) Q s.
Proof. done. Qed.

Lemma wp_bind {A B} (m : M A) (k : A -> M B) Q s :
  wp m (fun r s' => match r with
                    | Ok a => wp (k a) Q s'
                    | Raise e => Q (Raise e) s'
                    end) s ->
  wp (m ≫= k) Q s.
Proof.
  unfold wp, mbind, M_bind. by destruct (m s) as [[a|e] s'].
Qed.

Lemma wp_try_except {A} (body : M A) handler Q s :
  wp body (fun r s' => match r with
                       | Ok a => Q (Ok a) s'
                       | Raise e => wp (handler e) Q s'
                       end) s ->
  wp (try_except body handler) Q s.
Proof.
  unfold wp, try_except. by destruct (body s) as [[a|e] s'].
Qed.

Lemma wp_try_finally {A} (body : M A) final Q s :
  wp body (fun r s' =>
             wp final (fun r' s'' => match r' with
                                     | Ok _ => Q r s''
                                     | Raise e => Q (Raise e) s''
                                     end) s') s ->
  wp (try_finally body final) Q s.
Proof.
  unfold wp, try_finally. destruct (body s) as [r s']; simpl.
  by destruct (final s') as [[u|e] s''].
Qed.

Lemma wp_mono {A} (m : M A) (Q Q' : result A -> state -> Prop) s :
  wp m Q s -> (forall r s', Q r s' -> Q' r s') -> wp m Q' s.
Proof. unfold wp. auto. Qed.

Lemma wp_keeps {A} T (m : M A) (Q : result A -> state -> Prop) s :
  keeps T m -> (forall r s', T s s' -> Q r s') -> wp m Q s.
Proof. unfold wp, keeps. auto. Qed.

(** A relation that is reflexive and transitive is kept by the control
    structure as soon as the parts keep it. *)
Section Keeps.

Context (T : state -> state -> Prop) `{!PreOrder T}.

Lemma keeps_ret {A} (a : A) : keeps T (mret a).
Proof. intros s. simpl. reflexivity. Qed.

Lemma keeps_raise {A} (e : exn) : keeps T (@raise A e).
Proof. intros s. simpl. reflexivity. Qed.

Lemma keeps_bind {A B} (m : M A) (k : A -> M B) :
  keeps T m -> (forall a, keeps T (k a)) -> keeps T (m ≫= k).
Proof.
  intros Hm Hk s. specialize (Hm s). unfold mbind, M_bind.
  destruct (m s) as [[a|e] s']; simpl in *; [|done].
  etrans; [exact Hm | apply Hk].
Qed.

Lemma keeps_try_except {A} (body : M A) handler :
  keeps T body -> (forall e, keeps T (handler e)) -> keeps T (try_except body handler).
Proof.
  intros Hm Hk s. specialize (Hm s). unfold try_except.
  destruct (body s) as [[a|e] s']; simpl in *; [done|].
  etrans; [exact Hm | apply Hk].
Qed.

Lemma keeps_try_except_cls {A} cls (body : M A) handler :
  keeps T body -> (forall e, keeps T (handler e)) ->
  keeps T (try_except_cls cls body handler).
Proof.
  intros Hm Hk. apply keeps_try_except; [done|].
  intros e. case_decide; [apply Hk | apply keeps_raise].
Qed.

Lemma keeps_try_finally {A} (body : M A) final :
  keeps T body -> keeps T final -> keeps T (try_finally body final).
Proof.
  intros Hm Hf s. specialize (Hm s). unfold try_finally.
  destruct (body s) as [r s']; simpl in *. specialize (Hf s').
  destruct (final s') as [[u|e] s'']; simpl in *; by etrans.
Qed.

End Keeps.

#[global] Instance same_collection_preorder : PreOrder same_collection.
Proof. split; unfold same_collection; [done | intros x y z; congruence]. Qed.

#[global] Instance same_files_preorder : PreOrder same_files.
Proof. split; unfold same_files; [done | intros x y z; congruence]. Qed.

#[global] Instance touch_preorder id : PreOrder (touch id).
Proof.
  split; unfold touch.
  - intros s. by apply Forall_Forall2_diag, Forall_forall.
  - intros x y z Hxy Hyz.
    eapply Forall2_trans; [|exact Hxy|exact Hyz].
    simpl. intros a b c [Hab Hab'] [Hbc Hbc']. split; [congruence|].
    intros Hne. rewrite Hbc', Hab'; congruence.
Qed.

#[global] Instance emits_preorder p : PreOrder (emits p).
Proof.
  split.
  - intros s. exists []. by rewrite app_nil_r.
  - intros x y z (t1 & E1 & F1) (t2 & E2 & F2). exists (t1 ++ t2).
    rewrite E2, E1, <- app_assoc. split; [done | by apply Forall_app].
Qed.

(** ** Which steps each function takes *)

Section Steps.

Context (W : World) (T : state -> state -> Prop) `{!PreOrder T}.
Hypothesis admits_print : forall text, admits T (EvPrint text).

Lemma keeps_emit ev : admits T ev -> keeps T (emit ev).
Proof. intros H s. apply H. Qed.

Lemma keeps_print text : keeps T (print text).
Proof. apply keeps_emit, admits_print. Qed.

Lemma keeps_find_one id : admits T (EvFindOne id) -> keeps T (find_one id).
Proof. intros H s. apply H. Qed.

Lemma keeps_find_pending : admits T EvFind -> keeps T find_pending.
Proof. intros H s. apply H. Qed.

Lemma keeps_httpx_get url : admits T (EvHttpGet url) -> keeps T (httpx_get W url).
Proof. intros H s. unfold httpx_get. case_match; apply H. Qed.

Lemma keeps_read_file path : admits T (EvFileRead path) -> keeps T (read_file path).
Proof. intros H s. unfold read_file. case_match; apply H. Qed.

Lemma keeps_begin_analyze_document bytes :
  admits T (EvAnalyze bytes) -> keeps T (begin_analyze_document W bytes).
Proof. intros H s. unfold begin_analyze_document. case_match; apply H. Qed.

Lemma keeps_chat_completions_create messages :
  admits T (EvCompletion messages) -> keeps T (chat_completions_create W messages).
Proof. intros H s. unfold chat_completions_create. case_match; apply H. Qed.

Lemma keeps_now_isoformat : admits T EvNow -> keeps T (now_isoformat W).
Proof. intros H s. apply H. Qed.

Ltac keeps_known :=
  first
    [ apply keeps_print | apply keeps_emit | apply keeps_find_one
    | apply keeps_find_pending | apply keeps_httpx_get | apply keeps_read_file
    | apply keeps_begin_analyze_document | apply keeps_chat_completions_create
    | apply keeps_now_isoformat ].

Ltac keeps_go :=
  repeat lazymatch goal with
    | |- PreOrder _ => solve [apply _]
    | |- admits _ _ => solve [auto]
    | |- keeps _ _ =>
        first
          [ assumption
          | solve [auto]
          | keeps_known
          | apply keeps_ret
          | apply keeps_raise
          | apply keeps_bind; [| |intros ?]
          | apply keeps_try_except_cls; [| |intros ?]
          | apply keeps_try_except; [| |intros ?]
          | apply keeps_try_finally
          | case_match ]
    end.

Lemma keeps_loads text : keeps T (loads W text).
Proof. unfold loads. keeps_go. Qed.

Lemma keeps_first_value p : keeps T (first_value p).
Proof. unfold first_value. keeps_go. Qed.

Lemma keeps_first_key p : keeps T (first_key p).
Proof. unfold first_key. keeps_go. Qed.

Lemma keeps_raise_for_status response : keeps T (raise_for_status response).
Proof. unfold raise_for_status. keeps_go. Qed.

Lemma keeps_read_local name v : keeps T (read_local name v).
Proof. unfold read_local. keeps_go. Qed.

Lemma keeps_doc_getitem_image doc : keeps T (doc_getitem_image doc).
Proof. unfold doc_getitem_image. keeps_go. Qed.

Hint Resolve keeps_print keeps_loads keeps_first_value keeps_first_key
  keeps_raise_for_status keeps_read_local keeps_doc_getitem_image : core.

Lemma keeps_get_openai_response messages :
  admits T (EvCompletion messages) -> keeps T (get_openai_response W messages).
Proof. intros H. unfold get_openai_response. keeps_go. Qed.

Lemma keeps_correct_pages ocr_output acc :
  (forall k v rest, (k, v) :: rest ∈ ocr_output ->
     admits T (EvCompletion (correction_messages v))) ->
  keeps T (correct_pages W ocr_output acc).
Proof.
  revert acc. induction ocr_output as [|p l IH]; intros acc H; simpl.
  - by apply keeps_ret.
  - destruct p as [|[k v] rest]; simpl.
    + intros s. reflexivity.
    + change (keeps T (response ← get_openai_response W (correction_messages v);
                       key ← mret k;
                       correct_pages W l (acc ++ [[(key, response)]]))).
      apply keeps_bind; [done| |intros response].
      * apply keeps_get_openai_response, (H k v rest). left.
      * apply keeps_bind; [done|by apply keeps_ret|intros key].
        apply IH. intros k0 v0 rest0 Hin. apply (H k0 v0 rest0). by right.
Qed.

Lemma keeps_process_ocr_output ocr_output :
  (forall k v rest, (k, v) :: rest ∈ ocr_output ->
     admits T (EvCompletion (correction_messages v))) ->
  keeps T (process_ocr_output W ocr_output).
Proof.
  intros H. unfold process_ocr_output.
  apply keeps_try_except_cls; [done|by apply keeps_correct_pages|intros e].
  keeps_go.
Qed.

Lemma keeps_first_values json_data : keeps T (first_values json_data).
Proof.
  induction json_data as [|p l IH]; simpl; keeps_go.
Qed.

Lemma keeps_get_metadata object_id fields :
  admits T (EvFindOne object_id) ->
  (forall c, admits T (EvCompletion (extraction_messages c fields))) ->
  keeps T (get_metadata W object_id fields).
Proof.
  intros H1 H2. unfold get_metadata.
  apply keeps_bind; [done|by apply keeps_find_one|intros [d|]]; [|by apply keeps_raise].
  apply keeps_bind; [done|apply keeps_first_values|intros contents].
  apply keeps_try_except_cls; [done| |intros e; keeps_go].
  apply keeps_bind; [done|apply keeps_get_openai_response, H2|intros r].
  apply keeps_loads.
Qed.

Lemma keeps_get_metadata_for_final_assignment object_id :
  admits T (EvExtract Assignment) ->
  admits T (EvFindOne object_id) ->
  (forall c f, admits T (EvCompletion (extraction_messages c f))) ->
  keeps T (get_metadata_for_final_assignment W object_id).
Proof.
  intros H1 H2 H3. unfold get_metadata_for_final_assignment.
  apply keeps_bind; [done|by apply keeps_emit|intros _].
  by apply keeps_get_metadata.
Qed.

Lemma keeps_get_metadata_for_final_release object_id :
  admits T (EvExtract Release) ->
  admits T (EvFindOne object_id) ->
  (forall c f, admits T (EvCompletion (extraction_messages c f))) ->
  keeps T (get_metadata_for_final_release W object_id).
Proof.
  intros H1 H2 H3. unfold get_metadata_for_final_release.
  apply keeps_bind; [done|by apply keeps_emit|intros _].
  by apply keeps_get_metadata.
Qed.

Lemma keeps_extract_with_retry call name object_id :
  keeps T call -> keeps T (extract_with_retry call name object_id).
Proof. intros H. unfold extract_with_retry. keeps_go. Qed.

Lemma keeps_extract_and_finish doc :
  finish_steps T doc -> keeps T (extract_and_finish W doc).
Proof.
  intros (H1 & H2 & H3 & H4 & H5). unfold extract_and_finish.
  apply keeps_bind; [done|by apply keeps_now_isoformat|intros iso].
  apply keeps_bind; [done| |intros fa].
  { apply keeps_extract_with_retry.
    by apply keeps_get_metadata_for_final_assignment. }
  apply keeps_bind; [done| |intros fr].
  { apply keeps_extract_with_retry.
    by apply keeps_get_metadata_for_final_release. }
  keeps_go.
Qed.

Lemma keeps_process_cached doc ocr_output :
  cached_steps T doc ocr_output -> keeps T (process_cached W doc ocr_output).
Proof.
  intros (H1 & H2). unfold process_cached.
  apply keeps_bind; [done|by apply keeps_process_ocr_output|intros json_data].
  keeps_go.
Qed.

Lemma keeps_mark_failed doc e :
  keeps T (update_one (doc_id doc) [SetStatus failed]) ->
  keeps T (mark_failed doc e).
Proof. intros H. unfold mark_failed. keeps_go. Qed.

Lemma keeps_process_document_steps_cached doc p rest :
  doc_ocr_output doc = Some (p :: rest) ->
  cached_steps T doc (p :: rest) ->
  finish_steps T doc ->
  keeps T (process_document_steps W doc).
Proof.
  intros Hc H3 H4. unfold process_document_steps. rewrite Hc.
  apply keeps_bind; [done|by apply keeps_process_cached|intros go].
  destruct go; [by apply keeps_extract_and_finish|by apply keeps_ret].
Qed.

Lemma keeps_process_document_cached doc p rest :
  doc_ocr_output doc = Some (p :: rest) ->
  keeps T (update_one (doc_id doc) [SetStatus processing]) ->
  keeps T (update_one (doc_id doc) [SetStatus failed]) ->
  cached_steps T doc (p :: rest) ->
  finish_steps T doc ->
  keeps T (process_document W doc).
Proof.
  intros Hc H1 H2 H3 H4. unfold process_document.
  apply keeps_try_except; [done| |intros e; by apply keeps_mark_failed].
  apply keeps_bind; [done|done|intros _].
  by eapply keeps_process_document_steps_cached.
Qed.

Lemma keeps_analyze_document path :
  admits T (EvFileRead path) ->
  (forall bytes, admits T (EvAnalyze bytes)) ->
  keeps T (analyze_document W path).
Proof. intros H1 H2. unfold analyze_document. keeps_go. Qed.

(** The whole state machine, from what its parts keep. *)
Section Whole.

Variable doc : document.
Hypothesis keeps_cached : forall l, keeps T (process_cached W doc l).
Hypothesis keeps_processing : keeps T (update_one (doc_id doc) [SetStatus processing]).
Hypothesis keeps_failed : keeps T (update_one (doc_id doc) [SetStatus failed]).
Hypothesis finish : finish_steps T doc.
Hypothesis admits_http : forall url, admits T (EvHttpGet url).
Hypothesis admits_read : forall path, admits T (EvFileRead path).
Hypothesis admits_analyze : forall bytes, admits T (EvAnalyze bytes).

Lemma keeps_ocr_attempt path : keeps T (ocr_attempt W doc path).
Proof.
  assert (Han : keeps T (analyze_document W path)).
  { by apply keeps_analyze_document. }
  unfold ocr_attempt.
  apply keeps_try_except; [done| |intros e; keeps_go].
  apply keeps_bind; [done|done|intros [|p l]]; [keeps_go|].
  apply (keeps_cached (p :: l)).
Qed.

Hypothesis keeps_write : forall path data, keeps T (write_file W path data).
Hypothesis keeps_remove : forall path, keeps T (os_remove path).

Lemma keeps_ocr_and_correct path : keeps T (ocr_and_correct W doc path).
Proof.
  unfold ocr_and_correct.
  apply keeps_try_finally; [done|apply keeps_ocr_attempt|done].
Qed.

Lemma keeps_process_uncached : keeps T (process_uncached W doc).
Proof.
  pose proof keeps_ocr_and_correct as Hoc.
  unfold process_uncached. keeps_go.
Qed.

Lemma keeps_process_document_steps : keeps T (process_document_steps W doc).
Proof.
  pose proof keeps_process_uncached as Hun.
  pose proof (keeps_extract_and_finish doc finish) as Hfin.
  unfold process_document_steps.
  apply keeps_bind; [done| |intros go].
  - destruct (doc_ocr_output doc) as [[|p rest]|]; done.
  - destruct go; [done|by apply keeps_ret].
Qed.

Lemma keeps_process_document : keeps T (process_document W doc).
Proof.
  unfold process_document.
  apply keeps_try_except; [done| |intros e; by apply keeps_mark_failed].
  apply keeps_bind; [done|done|intros _].
  apply keeps_process_document_steps.
Qed.

(** Once the status is [processing], the rest of the run is a [T]-step. *)
Lemma process_document_after_first_update s :
  T (update_one (doc_id doc) [SetStatus processing] s).2 (process_document W doc s).2.
Proof.
  unfold process_document, try_except, mbind, M_bind.
  set (s1 := (update_one (doc_id doc) [SetStatus processing] s).2).
  change (update_one (doc_id doc) [SetStatus processing] s) with (Ok tt, s1).
  pose proof (keeps_process_document_steps s1) as H1.
  destruct (process_document_steps W doc s1) as [[u|e] s2]; simpl in *; [done|].
  etrans; [exact H1|]. by apply keeps_mark_failed.
Qed.

End Whole.

(** The same, for a relation that admits every event and every update of
    the document. *)
Section Permissive.

Hypothesis admits_all : forall ev, admits T ev.
Variable doc : document.
Hypothesis keeps_update : forall sets, keeps T (update_one (doc_id doc) sets).
Hypothesis keeps_write : forall path data, keeps T (write_file W path data).
Hypothesis keeps_remove : forall path, keeps T (os_remove path).

Lemma permissive_process_cached l : keeps T (process_cached W doc l).
Proof. apply keeps_process_cached. by split. Qed.

Lemma permissive_finish_steps : finish_steps T doc.
Proof. by repeat split. Qed.

Lemma permissive_process_document : keeps T (process_document W doc).
Proof.
  apply keeps_process_document;
    auto using permissive_process_cached, permissive_finish_steps.
Qed.

Lemma permissive_after_first_update s :
  T (update_one (doc_id doc) [SetStatus processing] s).2 (process_document W doc s).2.
Proof.
  apply process_document_after_first_update;
    auto using permissive_process_cached, permissive_finish_steps.
Qed.

End Permissive.

End Steps.

(** ** The store *)

Lemma apply_set_id d f : doc_id (apply_set d f) = doc_id d.
Proof. by destruct f. Qed.

Lemma apply_sets_id sets d : doc_id (apply_sets sets d) = doc_id d.
Proof.
  unfold apply_sets. revert d.
  induction sets as [|f sets IH]; intros d; simpl; [done|].
  by rewrite IH, apply_set_id.
Qed.

Lemma store_find_one_update id sets c :
  store_find_one id (store_update id sets c) = apply_sets sets <$> store_find_one id c.
Proof.
  induction c as [|d c IH]; simpl; [done|].
  destruct (decide (doc_id d = id)) as [E|N]; simpl.
  - rewrite apply_sets_id. by rewrite decide_True.
  - by rewrite decide_False.
Qed.

Lemma store_find_one_update_ne id id' sets c :
  id' <> id ->
  store_find_one id' (store_update id sets c) = store_find_one id' c.
Proof.
  intros Hne. induction c as [|d c IH]; simpl; [done|].
  destruct (decide (doc_id d = id)) as [E|N]; simpl.
  - rewrite apply_sets_id. rewrite !decide_False; congruence.
  - by rewrite IH.
Qed.

Lemma store_update_touch id sets c :
  Forall2 (fun d d' => doc_id d' = doc_id d /\ (doc_id d <> id -> d' = d))
    c (store_update id sets c).
Proof.
  induction c as [|d c IH]; simpl; [constructor|].
  destruct (decide (doc_id d = id)) as [E|N].
  - constructor; [by rewrite apply_sets_id|].
    by apply Forall_Forall2_diag, Forall_forall.
  - by constructor.
Qed.

Lemma store_find_one_elem id c d :
  store_find_one id c = Some d -> d ∈ c /\ doc_id d = id.
Proof.
  induction c as [|d0 c IH]; simpl; [done|].
  case_decide.
  - intros [= ->]. split; [left|done].
  - intros H'. destruct (IH H') as [? ?]. split; [by right|done].
Qed.

Lemma store_find_one_NoDup c d :
  NoDup (map doc_id c) -> d ∈ c -> store_find_one (doc_id d) c = Some d.
Proof.
  induction c as [|d0 c IH]; simpl; intros Hnd Hin; [by apply elem_of_nil in Hin|].
  apply NoDup_cons in Hnd as [Hni Hnd].
  apply elem_of_cons in Hin as [->|Hin]; [by rewrite decide_True|].
  rewrite decide_False; [by apply IH|].
  intros E. apply Hni. rewrite E. apply list_elem_of_fmap. by exists d.
Qed.

Lemma touch_find_other id id' s s' :
  touch id s s' -> id' <> id ->
  store_find_one id' (collection s') = store_find_one id' (collection s).
Proof.
  unfold touch. intros H Hne.
  induction H as [|d d' c c' [Hid Hsame] _ IH]; simpl; [done|].
  rewrite Hid. case_decide as E.
  - rewrite Hsame; [done | congruence].
  - done.
Qed.

Lemma touch_find_is_Some id id' s s' :
  touch id s s' ->
  is_Some (store_find_one id' (collection s)) ->
  is_Some (store_find_one id' (collection s')).
Proof.
  unfold touch. intros H.
  induction H as [|d d' c c' [Hid Hsame] _ IH]; simpl; [done|].
  rewrite Hid. by case_decide.
Qed.

Lemma touch_ids id s s' :
  touch id s s' -> map doc_id (collection s') = map doc_id (collection s).
Proof.
  unfold touch. intros H.
  induction H as [|d d' c c' [Hid Hsame] _ IH]; simpl; [done|].
  by rewrite Hid, IH.
Qed.

Lemma admits_touch id ev : admits (touch id) ev.
Proof. intros s. unfold touch. simpl. by apply Forall_Forall2_diag, Forall_forall. Qed.

Lemma admits_same_collection ev : admits same_collection ev.
Proof. by intros s. Qed.

Lemma admits_same_files ev : admits same_files ev.
Proof. by intros s. Qed.

Lemma admits_emits (p : event -> Prop) ev : p ev -> admits (emits p) ev.
Proof. intros H s. exists [ev]. split; [done | by constructor]. Qed.

Lemma keeps_touch_update_one id sets : keeps (touch id) (update_one id sets).
Proof. intros s. unfold touch. simpl. apply store_update_touch. Qed.

Lemma keeps_same_files_update_one id sets : keeps same_files (update_one id sets).
Proof. by intros s. Qed.

Lemma keeps_emits_update_one (p : event -> Prop) id sets :
  p (EvUpdateOne id sets) -> keeps (emits p) (update_one id sets).
Proof. intros H s. exists [EvUpdateOne id sets]. split; [done | by constructor]. Qed.

Lemma keeps_same_collection_write_file W path data :
  keeps same_collection (write_file W path data).
Proof. intros s. unfold write_file. by case_match. Qed.

Lemma keeps_same_collection_os_remove path : keeps same_collection (os_remove path).
Proof. intros s. unfold os_remove. by case_match. Qed.

Lemma keeps_touch_write_file W id path data : keeps (touch id) (write_file W path data).
Proof.
  intros s. unfold touch. rewrite (keeps_same_collection_write_file W path data s).
  by apply Forall_Forall2_diag, Forall_forall.
Qed.

Lemma keeps_touch_os_remove id path : keeps (touch id) (os_remove path).
Proof.
  intros s. unfold touch. rewrite (keeps_same_collection_os_remove path s).
  by apply Forall_Forall2_diag, Forall_forall.
Qed.

(** [process_document] changes no record but its own. *)
Lemma process_document_touch W doc : keeps (touch (doc_id doc)) (process_document W doc).
Proof.
  apply permissive_process_document; [apply _|..].
  - intros text. apply admits_touch.
  - intros ev. apply admits_touch.
  - intros sets. apply keeps_touch_update_one.
  - intros path data. apply keeps_touch_write_file.
  - intros path. apply keeps_touch_os_remove.
Qed.

(** ** Status after one document *)

Lemma wp_any {A} (m : M A) (Q : result A -> state -> Prop) s :
  (forall r s', Q r s') -> wp m Q s.
Proof. unfold wp. auto. Qed.

Lemma settled_same_collection id s s' :
  same_collection s s' -> settled id s -> settled id s'.
Proof. unfold same_collection, settled. intros ->. done. Qed.

Lemma settled_update_failed id s :
  settled id ((update_one id [SetStatus failed] s).2).
Proof.
  intros d. simpl. rewrite store_find_one_update.
  destruct (store_find_one id (collection s)); simpl; [|done].
  intros [= <-]. by right.
Qed.

Lemma settled_update_processed id iso fr fa s :
  settled id
    ((update_one id
        [SetStatus processed; SetProcessedDate iso; SetFinalRelease fr;
         SetFinalAssignment fa] s).2).
Proof.
  intros d. simpl. rewrite store_find_one_update.
  destruct (store_find_one id (collection s)); simpl; [|done].
  intros [= <-]. by left.
Qed.

Section Status.

Variable W : World.

(** The outer handler never raises and leaves the status [failed]. *)
Lemma mark_failed_settles doc e s :
  wp (mark_failed doc e) (fun r s' => r = Ok tt /\ settled (doc_id doc) s') s.
Proof.
  unfold wp. split; [done|]. apply settled_update_failed.
Qed.

Lemma extract_and_finish_settles doc s :
  wp (extract_and_finish W doc)
    (fun r s' => is_ok r -> settled (doc_id doc) s') s.
Proof.
  unfold extract_and_finish.
  repeat (apply wp_bind; apply wp_any; intros [?|?] ?; [|done]).
  unfold wp. intros _. apply settled_update_processed.
Qed.

Lemma ocr_and_correct_settles doc path s :
  wp (ocr_and_correct W doc path)
    (fun r s' => r = Ok Returned -> settled (doc_id doc) s') s.
Proof.
  unfold ocr_and_correct. apply wp_try_finally.
  eapply wp_mono with
    (Q := fun r s' => r = Ok Returned -> settled (doc_id doc) s').
  - unfold ocr_attempt. apply wp_try_except. apply wp_bind. apply wp_any.
    intros [extracted|e] s1.
    + destruct extracted as [|p l].
      * unfold wp. intros _.
        eapply settled_same_collection; [|apply settled_update_failed]. done.
      * apply wp_bind. apply wp_any. intros [out|e] s2.
        -- by unfold wp.
        -- unfold wp. intros _. apply settled_update_failed.
    + unfold wp. intros _. apply settled_update_failed.
  - intros r s' Hr. apply (wp_keeps same_collection).
    + apply keeps_same_collection_os_remove.
    + intros [u|e] s'' Hsame; [|done].
      intros E. eapply settled_same_collection; eauto.
Qed.

Lemma process_uncached_settles doc s :
  wp (process_uncached W doc)
    (fun r s' => r = Ok Returned -> settled (doc_id doc) s') s.
Proof.
  unfold process_uncached.
  repeat (apply wp_bind; apply wp_any; intros [?|?] ?; [|done]).
  apply ocr_and_correct_settles.
Qed.

Lemma process_cached_continues doc ocr_output s :
  wp (process_cached W doc ocr_output) (fun r s' => r <> Ok Returned) s.
Proof.
  unfold process_cached.
  apply wp_bind; apply wp_any; intros [?|?] ?; [|done].
  by unfold wp.
Qed.

(** Whatever the services answer, [process_document] returns normally and
    the stored status of its document is [processed] or [failed]. *)
Lemma process_document_settles doc s :
  wp (process_document W doc)
    (fun r s' => r = Ok tt /\ settled (doc_id doc) s') s.
Proof.
  unfold process_document. apply wp_try_except.
  eapply wp_mono with
    (Q := fun r s' => is_ok r -> settled (doc_id doc) s').
  - apply wp_bind. apply wp_any. intros [[]|e0] s1; [|done].
    unfold process_document_steps. apply wp_bind.
    eapply wp_mono with
      (Q := fun r s' => r = Ok Returned -> settled (doc_id doc) s').
    + destruct (doc_ocr_output doc) as [[|p rest]|].
      * apply process_uncached_settles.
      * eapply wp_mono; [apply process_cached_continues|]. by intros r s' Hr E.
      * apply process_uncached_settles.
    + intros [[]|e1] s2 H; [| |done].
      * apply extract_and_finish_settles.
      * unfold wp. intros _. by apply H.
  - intros [[]|e] s' H.
    + split; [done | by apply H].
    + apply mark_failed_settles.
Qed.

Lemma process_document_never_raises doc s : (process_document W doc s).1 = Ok tt.
Proof. apply (process_document_settles doc s). Qed.

End Status.

(** ** The batch driver *)

Lemma keeps_emits_write_file W (p : event -> Prop) path data :
  p (EvFileWrite path) -> keeps (emits p) (write_file W path data).
Proof.
  intros H s. exists [EvFileWrite path]. split; [|by constructor].
  unfold write_file. by case_match.
Qed.

Lemma keeps_emits_os_remove (p : event -> Prop) path :
  p (EvRemove path) -> keeps (emits p) (os_remove path).
Proof.
  intros H s. exists [EvRemove path]. split; [|by constructor].
  unfold os_remove. by case_match.
Qed.

Section Batch.

Variable W : World.

(** The run of [process_document] on [doc] starts by writing the status
    [processing]. *)
Lemma process_document_starts doc s :
  exists t,
    trace (process_document W doc s).2
    = trace s ++ EvUpdateOne (doc_id doc) [SetStatus processing] :: t.
Proof.
  destruct (permissive_after_first_update W (emits any_event)
              (fun text => admits_emits any_event _ I)
              (fun ev => admits_emits any_event ev I) doc
              (fun sets => keeps_emits_update_one any_event _ sets I)
              (fun path data => keeps_emits_write_file W any_event path data I)
              (fun path => keeps_emits_os_remove any_event path I) s)
    as (t & Et & _).
  exists t. rewrite Et. simpl. by rewrite <- app_assoc.
Qed.

Lemma for_each_cons doc rest s :
  for_each (doc :: rest) (process_document W) s
  = for_each rest (process_document W) (process_document W doc s).2.
Proof.
  simpl. unfold mbind, M_bind.
  pose proof (process_document_never_raises W doc s) as H.
  destruct (process_document W doc s) as [r s1]. simpl in *. by subst r.
Qed.

Lemma for_each_ok docs s : (for_each docs (process_document W) s).1 = Ok tt.
Proof.
  revert s. induction docs as [|d rest IH]; intros s; [done|].
  rewrite for_each_cons. apply IH.
Qed.

Lemma for_each_ids docs s :
  map doc_id (collection (for_each docs (process_document W) s).2)
  = map doc_id (collection s).
Proof.
  revert s. induction docs as [|d rest IH]; intros s; [done|].
  rewrite for_each_cons, IH. apply (touch_ids (doc_id d)), process_document_touch.
Qed.

Lemma for_each_settles docs s id :
  settled id s \/ id ∈ map doc_id docs ->
  settled id (for_each docs (process_document W) s).2.
Proof.
  revert s. induction docs as [|d rest IH]; intros s H.
  - destruct H as [H|H]; [done | by apply elem_of_nil in H].
  - rewrite for_each_cons. apply IH.
    destruct (decide (id = doc_id d)) as [->|Hne].
    + left. apply (process_document_settles W d s).
    + destruct H as [H|H].
      * left. intros d'.
        rewrite (touch_find_other (doc_id d) id s); [apply H| |done].
        apply process_document_touch.
      * right. simpl in H. apply elem_of_cons in H as [?|?]; done.
Qed.

Lemma for_each_trace docs s :
  exists t,
    trace (for_each docs (process_document W) s).2 = trace s ++ t /\
    forall d, d ∈ docs -> EvUpdateOne (doc_id d) [SetStatus processing] ∈ t.
Proof.
  revert s. induction docs as [|d rest IH]; intros s.
  - exists []. split; [by rewrite app_nil_r|]. intros d H. by apply elem_of_nil in H.
  - rewrite for_each_cons.
    destruct (process_document_starts d s) as (t1 & E1).
    destruct (IH (process_document W d s).2) as (t2 & E2 & H2).
    exists ((EvUpdateOne (doc_id d) [SetStatus processing] :: t1) ++ t2).
    split; [by rewrite E2, E1, <- app_assoc|].
    intros d' [->|Hin]%elem_of_cons.
    + apply elem_of_app. left. left.
    + apply elem_of_app. right. by apply H2.
Qed.

End Batch.

(** C1.  One pass of the batch driver never raises, because
    [process_document] never does, and it leaves every record that was
    [notprocessed], [processing] or [failed] with the stored status
    [processed] or [failed]: [process_document] ran on each of them (its
    first write is in the trace of the pass), and after any run of
    [process_document] the stored status of its document is one of the two. *)
Theorem batch_pass_settles_every_pending_document (W : World) (s : state) :
  NoDup (map doc_id (collection s)) ->
  (forall doc s0,
     (process_document W doc s0).1 = Ok tt /\
     settled (doc_id doc) (process_document W doc s0).2) /\
  (process_documents W s).1 = Ok tt /\
  exists t,
    trace (process_documents W s).2 = trace s ++ EvFind :: t /\
    Forall2
      (fun d d' =>
         doc_id d' = doc_id d /\
         (pending d = true ->
          (doc_status_of d' = processed \/ doc_status_of d' = failed) /\
          EvUpdateOne (doc_id d) [SetStatus processing] ∈ t))
      (collection s) (collection (process_documents W s).2).
Proof.
  intros Hnd. split; [|split].
  - intros doc s0. apply (process_document_settles W doc s0).
  - apply (for_each_ok W).
  - set (docs := filter (fun d => pending d = true) (collection s)).
    change (process_documents W s)
      with (for_each docs (process_document W) (log EvFind s)).
    destruct (for_each_trace W docs (log EvFind s)) as (t & Et & Hev).
    pose proof (for_each_ids W docs (log EvFind s)) as Hids. simpl in Hids.
    exists t. split; [by rewrite Et; simpl; rewrite <- app_assoc|].
    apply Forall2_same_length_lookup_2.
    { by rewrite <- (length_map doc_id), <- Hids, length_map. }
    intros i d d' Hd Hd'.
    assert (Hid : doc_id d' = doc_id d).
    { assert (H1 : map doc_id (collection s) !! i = Some (doc_id d))
        by (by rewrite list_lookup_fmap, Hd).
      rewrite <- Hids, list_lookup_fmap, Hd' in H1. by injection H1. }
    split; [done|]. intros Hp.
    assert (Hin : d ∈ docs).
    { apply list_elem_of_filter. split; [done|]. by eapply list_elem_of_lookup_2. }
    split; [|by apply Hev].
    apply (for_each_settles W docs (log EvFind s) (doc_id d)).
    + right. apply list_elem_of_fmap. by exists d.
    + rewrite <- Hid. apply store_find_one_NoDup.
      * by rewrite Hids.
      * by eapply list_elem_of_lookup_2.
Qed.

(** ** The OCR adapter *)

Lemma count_app p t1 t2 : count p (t1 ++ t2) = (count p t1 + count p t2)%nat.
Proof. unfold count. by rewrite filter_app, length_app. Qed.

Lemma count_log_other p ev s : p ev = false -> count p (trace (log ev s)) = count p (trace s).
Proof.
  intros H. simpl. rewrite count_app. unfold count at 2. simpl.
  rewrite filter_cons_False; [simpl; lia | by rewrite H].
Qed.

(** C8.  A successful [analyze_document] returns one entry per page of the
    service result, in order; the entry of a page maps [str(page_number - 1)]
    to the contents of its lines joined by one space.  When the service
    numbers the pages from 1 in order, the key of the entry at position [i]
    is [str(i)]. *)
Theorem analyze_document_pages (W : World) (path : string) (s s' : state)
    (out : list page) :
  analyze_document W path s = (Ok out, s') ->
  exists bytes pages,
    files s !! path = Some bytes /\
    ocr_service W (count is_analyze (trace s)) bytes = inr pages /\
    out = map (fun p => [(pretty (page_number p - 1), String.concat " " (lines p))]) pages /\
    length out = length pages /\
    forall (i : nat) p,
      pages !! i = Some p -> page_number p = Z.of_nat i + 1 ->
      out !! i = Some [(pretty (Z.of_nat i), String.concat " " (lines p))].
Proof.
  unfold analyze_document, try_except, mbind, M_bind, read_file.
  destruct (files s !! path) as [bytes|] eqn:Hf; [|done].
  unfold begin_analyze_document.
  rewrite (count_log_other is_analyze (EvFileRead path) s eq_refl).
  destruct (ocr_service W (count is_analyze (trace s)) bytes) as [msg|pages] eqn:Ho;
    [done|].
  simpl. intros [= <- <-]. exists bytes, pages.
  split; [done|]. split; [done|]. split; [done|]. split; [by rewrite length_map|].
  intros i p Hp Hn. rewrite list_lookup_fmap, Hp. simpl. unfold page_entry.
  by replace (page_number p - 1) with (Z.of_nat i) by lia.
Qed.

(** ** Text correction keeps the page keys *)

Lemma correct_pages_aligned W l acc s out s' :
  correct_pages W l acc s = (Ok out, s') ->
  exists out', out = acc ++ out' /\ Forall2 same_page_key l out'.
Proof.
  revert acc s. induction l as [|p l IH]; intros acc s; simpl.
  - intros [= <- <-]. exists []. by rewrite app_nil_r.
  - destruct p as [|[k v] rest]; [done|].
    unfold mbind, M_bind; simpl.
    destruct (get_openai_response W (correction_messages v) s) as [[r|e] s1]; [|done].
    intros H. apply IH in H as (out' & -> & Hall).
    exists ([(k, r)] :: out'). split; [by rewrite <- app_assoc|].
    constructor; [|done]. by exists k, v, rest, r.
Qed.

Lemma process_ocr_output_aligned W l s out s' :
  process_ocr_output W l s = (Ok out, s') -> Forall2 same_page_key l out.
Proof.
  unfold process_ocr_output, try_except_cls, try_except.
  destruct (correct_pages W l [] s) as [[r|e] s1] eqn:E.
  - intros [= <- <-]. by apply correct_pages_aligned in E as (out' & -> & H).
  - case_decide; [|done]. by unfold mbind, M_bind.
Qed.

Ltac sets_mem :=
  repeat match goal with
    | H : _ ∈ [] |- _ => by apply elem_of_nil in H
    | H : _ ∈ _ :: _ |- _ =>
        apply elem_of_cons in H as [H|H]; [first [discriminate H | injection H as H]|]
    end.

Lemma process_cached_persists_aligned W doc l :
  keeps (emits persists_aligned) (process_cached W doc l).
Proof.
  intros s. unfold process_cached, mbind, M_bind.
  pose proof (keeps_process_ocr_output W (emits persists_aligned)
                (fun text => admits_emits persists_aligned (EvPrint text) I) l
                (fun k v rest _ =>
                   admits_emits persists_aligned
                     (EvCompletion (correction_messages v)) I) s) as Hk.
  destruct (process_ocr_output W l s) as [[out|e] s1] eqn:E; simpl in *; [|done].
  etrans; [exact Hk|]. apply (keeps_emits_update_one persists_aligned).
  simpl. intros o j Ho Hj.
  apply process_ocr_output_aligned in E.
  sets_mem. by subst.
Qed.

(** C6.  Every [update_one] of a run of [process_document] that sets
    [ocr_output] and [json_data] together sets two aligned sequences: one
    [json_data] entry per [ocr_output] entry, in the same order, whose only
    key is the page key of that [ocr_output] entry. *)
Theorem persisted_pages_are_aligned (W : World) (doc : document) (s : state) :
  exists t,
    trace (process_document W doc s).2 = trace s ++ t /\
    Forall persists_aligned t /\
    forall id o j,
      EvUpdateOne id [SetOcrOutput o; SetJsonData j] ∈ t ->
      length j = length o /\
      forall (i : nat) p, o !! i = Some p ->
        exists k v rest r, p = (k, v) :: rest /\ j !! i = Some [(k, r)].
Proof.
  assert (H : keeps (emits persists_aligned) (process_document W doc)).
  { apply keeps_process_document; try apply _;
      try (intros; apply admits_emits; exact I).
    - apply process_cached_persists_aligned.
    - apply keeps_emits_update_one. simpl. intros o j Ho Hj. sets_mem.
    - apply keeps_emits_update_one. simpl. intros o j Ho Hj. sets_mem.
    - repeat split; try (intros; apply admits_emits; exact I).
      intros iso fr fa. apply keeps_emits_update_one. simpl. intros o j Ho Hj. sets_mem.
    - intros path data. by apply keeps_emits_write_file.
    - intros path. by apply keeps_emits_os_remove. }
  destruct (H s) as (t & Et & Ht). exists t. split; [done|]. split; [done|].
  intros id o j Hin.
  rewrite Forall_forall in Ht. specialize (Ht _ Hin o j). simpl in Ht.
  assert (Hal : Forall2 same_page_key o j).
  { apply Ht; [left | right; left]. }
  split; [symmetry; by eapply Forall2_length|].
  intros i p Hp.
  destruct (Forall2_lookup_l _ _ _ _ _ Hal Hp) as (q & Hq & k & v & rest & r & -> & ->).
  by exists k, v, rest, r.
Qed.

(** ** Metadata extraction *)

Lemma first_values_run json_data s :
  first_values json_data s
  = match mapM page_text json_data with
    | Some contents => (Ok contents, s)
    | None => (Raise (Exn IndexError "list index out of range"), s)
    end.
Proof.
  induction json_data as [|p l IH]; [done|].
  destruct p as [|[k v] rest]; [done|].
  simpl. unfold mbind at 1, M_bind at 1. simpl.
  unfold mbind at 1, M_bind at 1. rewrite IH.
  by destruct (mapM page_text l).
Qed.

(** What [get_metadata] does with a stored record, case by case. *)
Lemma get_metadata_found W object_id fields s d :
  store_find_one object_id (collection s) = Some d ->
  get_metadata W object_id fields s
  = match mapM page_text (default [] (doc_json_data d)) with
    | None =>
        (Raise (Exn IndexError "list index out of range"), log (EvFindOne object_id) s)
    | Some contents =>
        let messages := extraction_messages (String.concat " " contents) fields in
        let s1 := log (EvCompletion messages) (log (EvFindOne object_id) s) in
        match completion W (count is_completion (trace s)) messages with
        | inl err =>
            (Raise (Exn OpenAIError err),
             log (EvPrint ("Error fetching response from OpenAI: " +:+ err)) s1)
        | inr text =>
            match json_loads W (strip text) with
            | inr v => (Ok v, s1)
            | inl msg =>
                (Ok VNone,
                 log (EvPrint ("Failed to parse OpenAI response for metadata : " +:+ msg)) s1)
            end
        end
    end.
Proof.
  intros Hd. unfold get_metadata, mbind at 1, M_bind at 1, find_one. rewrite Hd.
  unfold mbind at 1, M_bind at 1. rewrite first_values_run.
  destruct (mapM page_text (default [] (doc_json_data d))) as [contents|]; [|done].
  unfold try_except_cls, try_except, mbind, M_bind, get_openai_response, try_except,
    mbind, M_bind, chat_completions_create.
  rewrite (count_log_other is_completion (EvFindOne object_id) s eq_refl).
  destruct (completion W _ _) as [err|text]; [reflexivity|].
  unfold loads. simpl. destruct (json_loads W (strip text)); reflexivity.
Qed.

Lemma get_metadata_not_found W object_id fields s :
  store_find_one object_id (collection s) = None ->
  get_metadata W object_id fields s
  = (Raise (Exn ValueError ("Document not found: " +:+ oid_str object_id)),
     log (EvFindOne object_id) s).
Proof.
  intros Hd. unfold get_metadata, mbind, M_bind, find_one. by rewrite Hd.
Qed.

(** C7.  [get_metadata] raises a [ValueError], the error
    [Document not found], exactly when the ID resolves to no stored record.
    When the record exists and the completion is not valid JSON, it does not
    raise: it prints the parse failure and returns [None]. *)
Theorem get_metadata_not_found_or_silent (W : World) (object_id : ObjectId)
    (fields : list (string * string)) (s : state) :
  ((exists msg, (get_metadata W object_id fields s).1 = Raise (Exn ValueError msg))
   <-> store_find_one object_id (collection s) = None) /\
  (store_find_one object_id (collection s) = None ->
   (get_metadata W object_id fields s).1
   = Raise (Exn ValueError ("Document not found: " +:+ oid_str object_id))) /\
  (forall d contents text msg,
     store_find_one object_id (collection s) = Some d ->
     mapM page_text (default [] (doc_json_data d)) = Some contents ->
     completion W (count is_completion (trace s))
       (extraction_messages (String.concat " " contents) fields) = inr text ->
     json_loads W (strip text) = inl msg ->
     (get_metadata W object_id fields s).1 = Ok VNone /\
     exists t,
       trace (get_metadata W object_id fields s).2
       = trace s ++ t ++
           [EvPrint ("Failed to parse OpenAI response for metadata : " +:+ msg)]).
Proof.
  split; [|split].
  - split.
    + intros [msg H].
      destruct (store_find_one object_id (collection s)) as [d|] eqn:Hd; [|done].
      rewrite (get_metadata_found W object_id fields s d Hd) in H.
      destruct (mapM page_text _) as [contents|]; [|done]. simpl in H.
      destruct (completion W _ _) as [err|text]; [done|].
      by destruct (json_loads W (strip text)).
    + intros Hd. eexists. by rewrite get_metadata_not_found.
  - intros Hd. by rewrite get_metadata_not_found.
  - intros d contents text msg Hd Hc Ht Hj.
    rewrite (get_metadata_found W object_id fields s d Hd), Hc. simpl.
    rewrite Ht, Hj. split; [done|]. simpl.
    eexists [_; _]. by rewrite <- !app_assoc.
Qed.

(** C9.  A stored record without [json_data], or with an empty one, does
    not make [get_metadata] fail: the combined content is the empty string,
    the extraction prompt is still sent, and the outcome is that of the
    completion and of parsing it. *)
Theorem get_metadata_without_json_data (W : World) (object_id : ObjectId)
    (fields : list (string * string)) (s : state) (d : document) :
  store_find_one object_id (collection s) = Some d ->
  doc_json_data d = None \/ doc_json_data d = Some [] ->
  let messages := extraction_messages "" fields in
  let s1 := log (EvCompletion messages) (log (EvFindOne object_id) s) in
  get_metadata W object_id fields s
  = match completion W (count is_completion (trace s)) messages with
    | inr text =>
        match json_loads W (strip text) with
        | inr v => (Ok v, s1)
        | inl msg =>
            (Ok VNone,
             log (EvPrint ("Failed to parse OpenAI response for metadata : " +:+ msg)) s1)
        end
    | inl err =>
        (Raise (Exn OpenAIError err),
         log (EvPrint ("Error fetching response from OpenAI: " +:+ err)) s1)
    end.
Proof.
  intros Hd Hj. rewrite (get_metadata_found W object_id fields s d Hd).
  destruct Hj as [-> | ->]; simpl; by destruct (completion W _ _).
Qed.

(** ** The cached branch *)

Lemma count_none (p : event -> Prop) (q : event -> bool) t :
  Forall p t -> (forall ev, p ev -> q ev = false) -> count q t = 0%nat.
Proof.
  intros Ht Hq. unfold count. induction Ht as [|ev t Hev _ IH]; [done|].
  rewrite filter_cons_False; [done|]. by rewrite (Hq ev Hev).
Qed.

Section Cached.

Variables (W : World) (doc : document) (p : page) (rest : list page).
Hypothesis cached : doc_ocr_output doc = Some (p :: rest).

Let ev_ok := cached_event (doc_id doc) (p :: rest).

Lemma cached_update_status st : keeps (emits ev_ok) (update_one (doc_id doc) [SetStatus st]).
Proof.
  apply keeps_emits_update_one. split; [done|]. intros o Ho. sets_mem.
Qed.

Lemma cached_steps_emits : cached_steps (emits ev_ok) doc (p :: rest).
Proof.
  split.
  - intros k v r Hin. apply admits_emits. left. by exists k, v, r.
  - intros j. apply keeps_emits_update_one. split; [done|].
    intros o Ho. sets_mem. by subst.
Qed.

Lemma finish_steps_emits : finish_steps (emits ev_ok) doc.
Proof.
  repeat split; try (intros; by apply admits_emits).
  - intros c f. apply admits_emits. right. by exists c, f.
  - intros iso fr fa. apply keeps_emits_update_one. split; [done|].
    intros o Ho. sets_mem.
Qed.

Lemma cached_run_emits : keeps (emits ev_ok) (process_document W doc).
Proof.
  apply (keeps_process_document_cached W (emits ev_ok)) with p rest;
    try apply _; auto using cached_update_status, cached_steps_emits, finish_steps_emits.
  intros text. by apply admits_emits.
Qed.

Lemma cached_run_same_files : keeps same_files (process_document W doc).
Proof.
  apply (keeps_process_document_cached W same_files) with p rest;
    try apply _; auto using keeps_same_files_update_one, admits_same_files.
  - split; auto using keeps_same_files_update_one, admits_same_files.
  - repeat split; auto using keeps_same_files_update_one, admits_same_files.
Qed.

(** Right after the status write, text correction runs on the cached
    pages; all that follows starts from the state it ends in. *)
Lemma cached_run_after_correction s :
  emits ev_ok
    (process_ocr_output W (p :: rest)
       (update_one (doc_id doc) [SetStatus processing] s).2).2
    (process_document W doc s).2.
Proof.
  unfold process_document, process_document_steps, try_except. rewrite cached.
  unfold process_cached, mbind, M_bind.
  set (s1 := (update_one (doc_id doc) [SetStatus processing] s).2).
  change (update_one (doc_id doc) [SetStatus processing] s) with (Ok tt, s1).
  cbv beta iota.
  destruct (process_ocr_output W (p :: rest) s1) as [[out|e] s2]; cbn [snd].
  - pose proof (proj2 cached_steps_emits out s2) as H1.
    set (s3 := (update_one (doc_id doc) [SetOcrOutput (p :: rest); SetJsonData out] s2).2) in *.
    change (update_one (doc_id doc) [SetOcrOutput (p :: rest); SetJsonData out] s2)
      with (Ok tt, s3).
    cbv beta iota. change ((mret Continue : M flow) s3) with (Ok Continue, s3).
    cbv beta iota.
    pose proof (keeps_extract_and_finish W (emits ev_ok)
                  (fun text => admits_emits ev_ok (EvPrint text) I)
                  doc finish_steps_emits s3) as H2.
    destruct (extract_and_finish W doc s3) as [[u|e] s4]; cbn [snd] in *.
    + by etrans.
    + etrans; [exact H1|]. etrans; [exact H2|].
      apply keeps_mark_failed; [apply _| |apply cached_update_status].
      intros text. by apply admits_emits.
  - apply keeps_mark_failed; [apply _| |apply cached_update_status].
    intros text. by apply admits_emits.
Qed.

End Cached.

(** C3.  A run of [process_document] on a record whose [ocr_output] is
    populated downloads nothing, writes no file and never calls the OCR
    service; text correction runs on the cached pages, right after the
    status write, and every correction request of the run is the prompt of a
    cached page. *)
Theorem cached_ocr_output_skips_download_and_ocr (W : World) (doc : document)
    (s : state) (p : page) (rest : list page) :
  doc_ocr_output doc = Some (p :: rest) ->
  (exists t,
     trace (process_document W doc s).2 = trace s ++ t /\
     count is_analyze t = 0%nat /\
     count is_http_get t = 0%nat /\
     count is_file_write t = 0%nat /\
     Forall (cached_event (doc_id doc) (p :: rest)) t) /\
  files (process_document W doc s).2 = files s /\
  emits (cached_event (doc_id doc) (p :: rest))
    (process_ocr_output W (p :: rest)
       (update_one (doc_id doc) [SetStatus processing] s).2).2
    (process_document W doc s).2.
Proof.
  intros Hc. split; [|split].
  - destruct (cached_run_emits W doc p rest Hc s) as (t & Et & Ht).
    exists t. split; [done|].
    repeat split; try done;
      apply (count_none _ _ _ Ht); by intros [].
  - apply (cached_run_same_files W doc p rest Hc s).
  - by apply cached_run_after_correction.
Qed.

#[global] Instance keeps_cache_preorder l : PreOrder (keeps_cache l).
Proof.
  split; unfold keeps_cache, cache_kept.
  - intros s. by apply Forall_Forall2_diag, Forall_forall.
  - intros x y z Hxy Hyz.
    eapply Forall2_trans; [|exact Hxy|exact Hyz].
    simpl. intros a b c (Hab & Hab1 & Hab2) (Hbc & Hbc1 & Hbc2).
    repeat split; [congruence|congruence|auto].
Qed.

Lemma admits_keeps_cache l ev : admits (keeps_cache l) ev.
Proof.
  intros s. unfold keeps_cache, cache_kept. simpl.
  by apply Forall_Forall2_diag, Forall_forall.
Qed.

Lemma keeps_cache_update_one l id sets :
  (forall d, cache_kept l d (apply_sets sets d)) ->
  keeps (keeps_cache l) (update_one id sets).
Proof.
  intros H s. unfold keeps_cache. simpl.
  induction (collection s) as [|d c IH]; simpl; [constructor|].
  case_decide.
  - constructor; [by rewrite apply_sets_id|].
    unfold cache_kept. by apply Forall_Forall2_diag, Forall_forall.
  - constructor; [|done]. by unfold cache_kept.
Qed.

Lemma Forall2_find_one (R : document -> document -> Prop) id c c' d :
  Forall2 (fun d d' => doc_id d' = doc_id d /\ R d d') c c' ->
  store_find_one id c = Some d ->
  exists d', store_find_one id c' = Some d' /\ R d d'.
Proof.
  intros H. induction H as [|d0 d0' c c' [Hid HR] _ IH]; simpl; [done|].
  rewrite Hid. case_decide; [|done].
  intros [= <-]. by exists d0'.
Qed.

(** C10.  On the cached branch the stored [ocr_output] is not changed: the
    record keeps its [_id], its [image] and its [ocr_output], and an update
    of the run that sets [ocr_output] sets it to the cached value. *)
Theorem cached_ocr_output_is_preserved (W : World) (doc : document) (s : state)
    (p : page) (rest : list page) :
  doc_ocr_output doc = Some (p :: rest) ->
  store_find_one (doc_id doc) (collection s) = Some doc ->
  (exists d',
     store_find_one (doc_id doc) (collection (process_document W doc s).2) = Some d' /\
     doc_ocr_output d' = doc_ocr_output doc /\
     doc_image d' = doc_image doc /\
     doc_id d' = doc_id doc) /\
  exists t,
    trace (process_document W doc s).2 = trace s ++ t /\
    forall id sets o,
      EvUpdateOne id sets ∈ t -> SetOcrOutput o ∈ sets -> o = p :: rest.
Proof.
  intros Hc Hd. split.
  - assert (H : keeps (keeps_cache (p :: rest)) (process_document W doc)).
    { apply (keeps_process_document_cached W (keeps_cache (p :: rest))) with p rest;
        try apply _; auto using admits_keeps_cache.
      - by apply keeps_cache_update_one.
      - by apply keeps_cache_update_one.
      - split; [auto using admits_keeps_cache|].
        intros j. by apply keeps_cache_update_one.
      - repeat split; auto using admits_keeps_cache.
        intros iso fr fa. by apply keeps_cache_update_one. }
    destruct (Forall2_find_one _ _ _ _ _ (H s) Hd) as (d' & Hd' & Him & Hoc).
    exists d'. split; [done|]. repeat split; [|done|].
    + rewrite Hc. by apply Hoc.
    + by apply store_find_one_elem in Hd' as [_ ?].
  - destruct (cached_run_emits W doc p rest Hc s) as (t & Et & Ht).
    exists t. split; [done|]. intros id sets o Hev Ho.
    rewrite Forall_forall in Ht. by apply (Ht _ Hev).
Qed.

(** ** The OCR branch *)

Lemma count_snoc p t ev :
  count p (t ++ [ev]) = (count p t + if p ev then 1 else 0)%nat.
Proof.
  rewrite count_app. f_equal. unfold count. simpl.
  destruct (p ev) eqn:E.
  - by rewrite filter_cons_True.
  - rewrite filter_cons_False; [done | by rewrite E].
Qed.

Section Uncached.

Variables (W : World) (doc : document) (s : state).
Variables (url : string) (response : http_response).
Hypothesis not_cached : doc_ocr_output doc = None \/ doc_ocr_output doc = Some [].
Hypothesis has_image : doc_image doc = Some url.
Hypothesis fetched : http_get W (count is_http_get (trace s)) url = inr response.
Hypothesis status_2xx : 200 <= status_code response <= 299.
Hypothesis written :
  file_write W (count is_file_write (trace s)) (temp_path W url) = WriteOk.

Lemma process_document_downloaded :
  process_document W doc s
  = try_except
      (go ← ocr_and_correct W doc (temp_path W url);
       match go with
       | Returned => mret tt
       | Continue => extract_and_finish W doc
       end)
      (mark_failed doc)
      (after_download W doc url response s).
Proof.
  unfold process_document, process_document_steps, try_except at 1.
  unfold mbind at 1, M_bind at 1.
  set (s1 := (update_one (doc_id doc) [SetStatus processing] s).2).
  change (update_one (doc_id doc) [SetStatus processing] s) with (Ok tt, s1).
  cbv beta iota.
  assert (Hbranch :
    match doc_ocr_output doc with
    | Some (p :: rest) => process_cached W doc (p :: rest)
    | _ => process_uncached W doc
    end = process_uncached W doc).
  { by destruct not_cached as [-> | ->]. }
  rewrite Hbranch. clear Hbranch.
  unfold process_uncached, doc_getitem_image. rewrite has_image.
  unfold try_except, mbind, M_bind. simpl.
  unfold httpx_get. simpl. rewrite count_snoc, Nat.add_0_r. rewrite fetched.
  unfold raise_for_status.
  assert (Hok : (200 <=? status_code response) && (status_code response <=? 299) = true).
  { apply andb_true_iff. split; apply Z.leb_le; lia. }
  rewrite Hok. simpl.
  unfold write_file. simpl. rewrite !count_snoc, !Nat.add_0_r.
  fold (temp_path W url). rewrite written.
  reflexivity.
Qed.

Let path := temp_path W url.
Let s3 := after_download W doc url response s.

Lemma after_download_file : files s3 !! path = Some (content response).
Proof. subst s3 path. unfold after_download. simpl. apply lookup_insert_eq. Qed.

Lemma after_download_analyze_count :
  count is_analyze (trace (log (EvFileRead path) s3)) = count is_analyze (trace s).
Proof.
  subst s3 path. unfold after_download. simpl.
  rewrite !count_snoc. simpl. lia.
Qed.

(** [finally: os.remove] finds the file and removes it, whatever happened
    in the [try]. *)
Lemma ocr_and_correct_removes :
  files (ocr_and_correct W doc path s3).2 = delete path (files s3) /\
  exists t1, trace (ocr_and_correct W doc path s3).2 = trace s3 ++ t1 ++ [EvRemove path].
Proof.
  unfold ocr_and_correct, try_finally.
  assert (H : keeps same_files (ocr_attempt W doc path)).
  { apply keeps_ocr_attempt; try apply _; auto using admits_same_files,
      keeps_same_files_update_one.
    intros l. apply keeps_process_cached; [apply _|auto using admits_same_files|].
    split; auto using admits_same_files, keeps_same_files_update_one. }
  assert (H' : keeps (emits any_event) (ocr_attempt W doc path)).
  { apply keeps_ocr_attempt; try apply _;
      try (intros; by apply admits_emits);
      try (by apply keeps_emits_update_one).
    intros l. apply keeps_process_cached; [apply _|intros; by apply admits_emits|].
    split; [intros; by apply admits_emits|].
    intros j. by apply keeps_emits_update_one. }
  specialize (H s3). unfold same_files in H.
  destruct (H' s3) as (t1 & Et1 & _).
  destruct (ocr_attempt W doc path s3) as [r s4]. cbn [snd] in H, Et1.
  unfold os_remove. rewrite H, after_download_file. split; [reflexivity|].
  exists t1. simpl. by rewrite Et1, <- app_assoc.
Qed.

(** What follows [ocr_and_correct] is a [T]-step, for a relation kept by
    the extraction and by the outer handler. *)
Lemma process_document_after_ocr (T : state -> state -> Prop) `{!PreOrder T} :
  keeps T (extract_and_finish W doc) ->
  (forall e, keeps T (mark_failed doc e)) ->
  T (ocr_and_correct W doc path s3).2 (process_document W doc s).2.
Proof.
  intros Hfin Hmf. rewrite process_document_downloaded.
  fold path s3. unfold try_except, mbind, M_bind.
  destruct (ocr_and_correct W doc path s3) as [[go|e] s4]; cbn [snd];
    cbv beta iota.
  - destruct go; cbv beta iota.
    + specialize (Hfin s4).
      destruct (extract_and_finish W doc s4) as [[u|e] s5]; cbn [snd] in Hfin |- *.
      * done.
      * etrans; [exact Hfin | apply Hmf].
    + change ((mret tt : M unit) s4) with (Ok tt, s4). cbn [snd]. reflexivity.
  - apply Hmf.
Qed.

Lemma process_document_removes_temp_file :
  files (process_document W doc s).2 !! path = None.
Proof.
  assert (H : same_files (ocr_and_correct W doc path s3).2 (process_document W doc s).2).
  { apply process_document_after_ocr; [apply _| |].
    - apply keeps_extract_and_finish; [apply _|auto using admits_same_files|].
      repeat split; auto using admits_same_files, keeps_same_files_update_one.
    - intros e. apply keeps_mark_failed; [apply _|auto using admits_same_files|].
      apply keeps_same_files_update_one. }
  unfold same_files in H. rewrite H, (proj1 ocr_and_correct_removes).
  apply lookup_delete_eq.
Qed.

(** The trace of the run: the three steps of the download, then the
    [try] block, then the removal of the file, then the rest. *)
Lemma process_document_writes_then_removes :
  exists t1 t2,
    trace (process_document W doc s).2
    = trace s ++
        [EvUpdateOne (doc_id doc) [SetStatus processing]; EvHttpGet url; EvFileWrite path]
        ++ t1 ++ EvRemove path :: t2.
Proof.
  assert (H : emits any_event (ocr_and_correct W doc path s3).2
                (process_document W doc s).2).
  { apply process_document_after_ocr; [apply _| |].
    - apply keeps_extract_and_finish; [apply _|intros; by apply admits_emits|].
      repeat split; try (intros; by apply admits_emits);
        intros iso fr fa; by apply keeps_emits_update_one.
    - intros e. apply keeps_mark_failed; [apply _|intros; by apply admits_emits|].
      by apply keeps_emits_update_one. }
  destruct H as (t2 & Et2 & _).
  destruct ocr_and_correct_removes as (_ & t1 & Et1).
  exists t1, t2. rewrite Et2, Et1. subst s3. unfold after_download. simpl.
  fold path. by rewrite <- !app_assoc.
Qed.

(** The run when the OCR service fails. *)
Lemma process_document_ocr_failure msg :
  ocr_service W (count is_analyze (trace s)) (content response) = inl msg ->
  collection (process_document W doc s).2
  = store_update (doc_id doc) [SetStatus failed]
      (store_update (doc_id doc) [SetStatus processing] (collection s)).
Proof.
  intros Ho. rewrite process_document_downloaded.
  fold path s3. unfold try_except at 1, mbind at 1, M_bind at 1.
  unfold ocr_and_correct, try_finally, ocr_attempt, try_except, mbind, M_bind.
  unfold analyze_document, try_except, mbind, M_bind, read_file.
  rewrite after_download_file.
  unfold begin_analyze_document. rewrite after_download_analyze_count, Ho.
  simpl. unfold os_remove. simpl. fold path.
  rewrite lookup_insert_eq. reflexivity.
Qed.

(** The run when the OCR service returns no page. *)
Lemma process_document_no_pages :
  ocr_service W (count is_analyze (trace s)) (content response) = inr [] ->
  process_document W doc s
  = (Ok tt,
     {| collection :=
          store_update (doc_id doc) [SetStatus failed]
            (store_update (doc_id doc) [SetStatus processing] (collection s));
        files := delete path (<[path := content response]> (files s));
        trace :=
          trace s ++
            [ EvUpdateOne (doc_id doc) [SetStatus processing];
              EvHttpGet url;
              EvFileWrite path;
              EvFileRead path;
              EvAnalyze (content response);
              EvUpdateOne (doc_id doc) [SetStatus failed];
              EvPrint ("No data extracted for document " +:+ oid_str (doc_id doc));
              EvRemove path ] |}).
Proof.
  intros Ho. rewrite process_document_downloaded.
  fold path s3. unfold try_except at 1, mbind at 1, M_bind at 1.
  unfold ocr_and_correct, try_finally, ocr_attempt, try_except, mbind, M_bind.
  unfold analyze_document, try_except, mbind, M_bind, read_file.
  rewrite after_download_file.
  unfold begin_analyze_document. rewrite after_download_analyze_count, Ho.
  simpl. unfold os_remove. simpl. fold path.
  rewrite lookup_insert_eq. simpl.
  unfold log, set_files, set_collection. simpl.
  f_equal. f_equal. by rewrite <- !app_assoc.
Qed.

End Uncached.

(** C4.  On the OCR branch, once the image was downloaded to its temporary
    file, the run removes that file ([os.remove] follows the write in the
    trace) and the file is gone when [process_document] returns, whatever
    the OCR and the correction did; and when the OCR service fails the
    stored status is [failed]. *)
Theorem temporary_file_is_always_removed (W : World) (doc : document) (s : state)
    (url : string) (response : http_response) :
  doc_ocr_output doc = None \/ doc_ocr_output doc = Some [] ->
  doc_image doc = Some url ->
  http_get W (count is_http_get (trace s)) url = inr response ->
  200 <= status_code response <= 299 ->
  file_write W (count is_file_write (trace s)) (temp_path W url) = WriteOk ->
  (process_document W doc s).1 = Ok tt /\
  (exists t1 t2,
     trace (process_document W doc s).2
     = trace s ++
         [ EvUpdateOne (doc_id doc) [SetStatus processing]; EvHttpGet url;
           EvFileWrite (temp_path W url) ]
         ++ t1 ++ EvRemove (temp_path W url) :: t2) /\
  files (process_document W doc s).2 !! temp_path W url = None /\
  forall msg d0,
    ocr_service W (count is_analyze (trace s)) (content response) = inl msg ->
    store_find_one (doc_id doc) (collection s) = Some d0 ->
    exists d',
      store_find_one (doc_id doc) (collection (process_document W doc s).2) = Some d' /\
      doc_status_of d' = failed.
Proof.
  intros Hc Hi Hh Hs Hw. split; [|split; [|split]].
  - apply process_document_never_raises.
  - by apply process_document_writes_then_removes with response.
  - by apply process_document_removes_temp_file with response.
  - intros msg d0 Ho Hd.
    rewrite (process_document_ocr_failure W doc s url response Hc Hi Hh Hs Hw msg Ho).
    rewrite !store_find_one_update, Hd. simpl. by eexists.
Qed.

(** C5.  When the OCR service returns no page, the run of [process_document]
    is: status write, download, file write, file read, OCR call, status
    [failed], the message, file removal.  No completion is requested, no
    update sets [ocr_output] or [json_data], the stored status is [failed]
    and the stored [ocr_output] and [json_data] are what they were. *)
Theorem empty_ocr_result_marks_failed (W : World) (doc : document) (s : state)
    (url : string) (response : http_response) :
  doc_ocr_output doc = None \/ doc_ocr_output doc = Some [] ->
  doc_image doc = Some url ->
  http_get W (count is_http_get (trace s)) url = inr response ->
  200 <= status_code response <= 299 ->
  file_write W (count is_file_write (trace s)) (temp_path W url) = WriteOk ->
  ocr_service W (count is_analyze (trace s)) (content response) = inr [] ->
  (process_document W doc s).1 = Ok tt /\
  (exists t,
     trace (process_document W doc s).2 = trace s ++ t /\
     t = [ EvUpdateOne (doc_id doc) [SetStatus processing];
           EvHttpGet url;
           EvFileWrite (temp_path W url);
           EvFileRead (temp_path W url);
           EvAnalyze (content response);
           EvUpdateOne (doc_id doc) [SetStatus failed];
           EvPrint ("No data extracted for document " +:+ oid_str (doc_id doc));
           EvRemove (temp_path W url) ] /\
     count is_completion t = 0%nat) /\
  forall d0,
    store_find_one (doc_id doc) (collection s) = Some d0 ->
    exists d',
      store_find_one (doc_id doc) (collection (process_document W doc s).2) = Some d' /\
      doc_status_of d' = failed /\
      doc_json_data d' = doc_json_data d0 /\
      doc_ocr_output d' = doc_ocr_output d0.
Proof.
  intros Hc Hi Hh Hs Hw Ho.
  rewrite (process_document_no_pages W doc s url response Hc Hi Hh Hs Hw Ho).
  split; [done|]. split.
  - eexists. split; [reflexivity|]. split; [reflexivity|]. reflexivity.
  - intros d0 Hd. simpl. rewrite !store_find_one_update, Hd. simpl. by eexists.
Qed.

(** ** The single retry of a metadata call *)

Lemma extract_with_retry_first_try (call : M value) name object_id s v s1 :
  call s = (Ok v, s1) ->
  extract_with_retry call name object_id s = (Ok (Some v), s1).
Proof.
  intros H. unfold extract_with_retry, try_except, mbind, M_bind. by rewrite H.
Qed.

Lemma extract_with_retry_second_try (call : M value) name object_id s e s1 v s2 :
  call s = (Raise e, s1) ->
  call (log (EvPrint ("Error getting " +:+ name +:+ " for document "
                        +:+ oid_str object_id +:+ ": " +:+ exn_str e)) s1)
  = (Ok v, s2) ->
  extract_with_retry call name object_id s = (Ok (Some v), s2).
Proof.
  intros H1 H2. unfold extract_with_retry, try_except, mbind, M_bind.
  rewrite H1. simpl. by rewrite H2.
Qed.

Lemma extract_with_retry_both_fail (call : M value) name object_id s e s1 e' s2 :
  call s = (Raise e, s1) ->
  call (log (EvPrint ("Error getting " +:+ name +:+ " for document "
                        +:+ oid_str object_id +:+ ": " +:+ exn_str e)) s1)
  = (Raise e', s2) ->
  extract_with_retry call name object_id s
  = (Ok None,
     log (EvPrint ("Retry failed for " +:+ name +:+ " for document "
                     +:+ oid_str object_id +:+ ": " +:+ exn_str e')) s2).
Proof.
  intros H1 H2. unfold extract_with_retry, try_except, mbind, M_bind.
  rewrite H1. simpl. by rewrite H2.
Qed.

Lemma get_metadata_no_extract W sch object_id fields :
  keeps (emits (not_extract sch)) (get_metadata W object_id fields).
Proof.
  apply keeps_get_metadata; try apply _; intros; by apply admits_emits.
Qed.

(** A call of the adapter for [final_assignment] is one entry in the trace. *)
Lemma get_metadata_for_final_assignment_counted W object_id s :
  count (is_extract Assignment)
    (trace (get_metadata_for_final_assignment W object_id s).2)
  = S (count (is_extract Assignment) (trace s)).
Proof.
  unfold get_metadata_for_final_assignment, mbind, M_bind.
  change (emit (EvExtract Assignment) s) with (Ok tt, log (EvExtract Assignment) s).
  cbv beta iota.
  destruct (get_metadata_no_extract W Assignment object_id final_assignment_fields
              (log (EvExtract Assignment) s)) as (t & Et & Ht).
  rewrite Et, count_app, (count_none _ _ _ Ht); [|done].
  simpl. rewrite count_snoc. simpl. lia.
Qed.

Lemma extract_release_not_assignment W object_id :
  keeps (emits (not_extract Assignment))
    (extract_with_retry (get_metadata_for_final_release W object_id)
       "final_release" object_id).
Proof.
  apply keeps_extract_with_retry; [apply _|intros; by apply admits_emits|].
  apply keeps_get_metadata_for_final_release; try apply _;
    intros; by apply admits_emits.
Qed.

(** The first half of the retry protocol.  When the first attempt for
    [final_assignment] raises and the second returns [v], and the
    extraction for [final_release] yields [fr], the last update stores [v]
    and [fr] with the status [processed], and the adapter was entered
    exactly twice for the assignment schema. *)
Theorem retry_stores_second_result (W : World) (doc : document) (s s2 s3 s4 : state)
    (e : exn) (v fr : value) :
  get_metadata_for_final_assignment W (doc_id doc) (log EvNow s) = (Raise e, s2) ->
  get_metadata_for_final_assignment W (doc_id doc)
    (log (EvPrint ("Error getting final_assignment for document "
                     +:+ oid_str (doc_id doc) +:+ ": " +:+ exn_str e)) s2)
  = (Ok v, s3) ->
  extract_with_retry (get_metadata_for_final_release W (doc_id doc))
    "final_release" (doc_id doc) s3 = (Ok (Some fr), s4) ->
  extract_and_finish W doc s
  = update_one (doc_id doc)
      [ SetStatus processed;
        SetProcessedDate (now_utc W (count is_now (trace s)));
        SetFinalRelease fr; SetFinalAssignment v ] s4 /\
  count (is_extract Assignment) (trace s4)
  = (count (is_extract Assignment) (trace s) + 2)%nat.
Proof.
  intros H1 H2 H3. split.
  - unfold extract_and_finish, mbind at 1, M_bind at 1.
    change (now_isoformat W s)
      with (Ok (now_utc W (count is_now (trace s))), log EvNow s).
    cbv beta iota. unfold mbind at 1, M_bind at 1.
    rewrite (extract_with_retry_second_try
               (get_metadata_for_final_assignment W (doc_id doc))
               "final_assignment" (doc_id doc) (log EvNow s) e s2 v s3 H1 H2).
    unfold mbind at 1, M_bind at 1. rewrite H3. reflexivity.
  - pose proof (get_metadata_for_final_assignment_counted W (doc_id doc) (log EvNow s))
      as C1. rewrite H1 in C1. cbn [snd] in C1.
    pose proof (get_metadata_for_final_assignment_counted W (doc_id doc)
                  (log (EvPrint ("Error getting final_assignment for document "
                                   +:+ oid_str (doc_id doc) +:+ ": " +:+ exn_str e)) s2))
      as C2. rewrite H2 in C2. cbn [snd] in C2.
    destruct (extract_release_not_assignment W (doc_id doc) s3) as (t & Et & Ht).
    rewrite H3 in Et. cbn [snd] in Et.
    rewrite Et, count_app, (count_none _ _ _ Ht); [|done].
    rewrite C2. simpl. rewrite count_snoc. simpl. rewrite C1.
    simpl. rewrite count_snoc. simpl. lia.
Qed.

(** First attempt fails, retry succeeds: the adapter ran twice for
    [final_assignment], once for [final_release], and the stored maps are
    the results of the successful attempts. *)
Example retry_then_success :
  let s' := (process_document (sample_world (inr one_page) llm_assignment_flaky)
               cached_doc (store_of [cached_doc])).2 in
  count (is_extract Assignment) (trace s') = 2%nat /\
  count (is_extract Release) (trace s') = 1%nat /\
  exists d',
    collection s' = [d'] /\
    doc_status_of d' = processed /\
    doc_final_assignment d' = Some (VDict []) /\
    doc_final_release d' = Some (VDict []).
Proof.
  vm_compute. split; [done|]. split; [done|]. by eexists.
Qed.

(** C2.  Both attempts for [final_assignment] fail: the adapter ran twice
    for that schema and the run went on to [final_release], but then the
    name [final_assignment] is unassigned when the last update is built,
    the outer handler takes over, and the stored status is [failed], not
    [processed]; no field map and no [processed_date] is stored. *)
Theorem double_extraction_failure_marks_failed :
  let s' := (process_document (sample_world (inr one_page) llm_assignment_down)
               cached_doc (store_of [cached_doc])).2 in
  count (is_extract Assignment) (trace s') = 2%nat /\
  count (is_extract Release) (trace s') = 1%nat /\
  last (trace s') = Some (EvUpdateOne (doc_id cached_doc) [SetStatus failed]) /\
  EvPrint
    ("Processing failed for document 665f1c2ab7e4d90a1c3e5f02: "
       +:+ "cannot access local variable 'final_assignment' "
       +:+ "where it is not associated with a value") ∈ trace s' /\
  exists d',
    collection s' = [d'] /\
    doc_status_of d' = failed /\
    doc_processed_date d' = None /\
    doc_final_assignment d' = None /\
    doc_final_release d' = None.
Proof.
  vm_compute. split; [done|]. split; [done|]. split; [done|]. split.
  - do 17 right. left.
  - by eexists.
Qed.

(** ** The theorems at sample inputs *)

Lemma batch_pass_on_two_records :
  NoDup (map doc_id (collection (store_of [fresh_doc; cached_doc]))) /\
  (process_documents fine_world (store_of [fresh_doc; cached_doc])).1 = Ok tt /\
  map doc_status_of
    (collection (process_documents fine_world (store_of [fresh_doc; cached_doc])).2)
  = [processed; processed].
Proof.
  assert (H : NoDup (map doc_id (collection (store_of [fresh_doc; cached_doc])))).
  { refine (bool_decide_unpack _ _). vm_compute. exact I. }
  split; [exact H|].
  split.
  - exact (proj1 (proj2
             (batch_pass_settles_every_pending_document fine_world
                (store_of [fresh_doc; cached_doc]) H))).
  - vm_compute. reflexivity.
Defined.

Lemma cached_record_skips_ocr :
  doc_ocr_output cached_doc = Some ([("0", "raw text")] :: []) /\
  files (process_document fine_world cached_doc (store_of [cached_doc])).2
  = files (store_of [cached_doc]).
Proof.
  split; [reflexivity|].
  exact (proj1 (proj2
           (cached_ocr_output_skips_download_and_ocr fine_world cached_doc
              (store_of [cached_doc]) [("0", "raw text")] [] eq_refl))).
Defined.

Lemma temp_file_removed_after_ocr_failure :
  files (process_document ocr_down_world fresh_doc (store_of [fresh_doc])).2
    !! temp_path ocr_down_world "http://x/doc.png" = None /\
  exists d',
    store_find_one (doc_id fresh_doc)
      (collection (process_document ocr_down_world fresh_doc (store_of [fresh_doc])).2)
    = Some d' /\
    doc_status_of d' = failed.
Proof.
  assert (Hs : 200 <= status_code sample_response <= 299) by (simpl; lia).
  pose proof (temporary_file_is_always_removed ocr_down_world fresh_doc
                (store_of [fresh_doc]) "http://x/doc.png" sample_response
                (or_introl eq_refl) eq_refl eq_refl Hs eq_refl)
    as (_ & _ & Hgone & Hfailed).
  split; [exact Hgone|].
  exact (Hfailed "Service unavailable" fresh_doc eq_refl eq_refl).
Defined.

Lemma empty_ocr_result_on_fresh_record :
  (process_document no_pages_world fresh_doc (store_of [fresh_doc])).1 = Ok tt /\
  exists d',
    store_find_one (doc_id fresh_doc)
      (collection (process_document no_pages_world fresh_doc (store_of [fresh_doc])).2)
    = Some d' /\
    doc_status_of d' = failed /\
    doc_json_data d' = None /\
    doc_ocr_output d' = None.
Proof.
  assert (Hs : 200 <= status_code sample_response <= 299) by (simpl; lia).
  pose proof (empty_ocr_result_marks_failed no_pages_world fresh_doc
                (store_of [fresh_doc]) "http://x/doc.png" sample_response
                (or_introl eq_refl) eq_refl eq_refl Hs eq_refl eq_refl)
    as (Hok & _ & Hstore).
  split; [exact Hok|].
  exact (Hstore fresh_doc eq_refl).
Defined.

Lemma prose_completion_returns_none :
  (get_metadata prose_world (doc_id cached_doc) final_release_fields
     (store_of [cached_doc])).1 = Ok VNone /\
  (exists msg,
     (get_metadata prose_world (Oid "000000000000000000000000") final_release_fields
        (store_of [cached_doc])).1 = Raise (Exn ValueError msg)).
Proof.
  pose proof (get_metadata_not_found_or_silent prose_world (doc_id cached_doc)
                final_release_fields (store_of [cached_doc])) as (_ & _ & Hsilent).
  pose proof (get_metadata_not_found_or_silent prose_world
                (Oid "000000000000000000000000")
                final_release_fields (store_of [cached_doc])) as (Hiff & _ & _).
  split.
  - exact (proj1 (Hsilent cached_doc [] "I could not find the fields."
                    "Expecting value: line 1 column 1 (char 0)"
                    eq_refl eq_refl eq_refl eq_refl)).
  - exact (proj2 Hiff eq_refl).
Defined.

Lemma analyze_one_page :
  analyze_document fine_world "/tmp/doc.png" downloaded_state
  = (Ok [[("0", "raw text")]],
     log (EvAnalyze "%PDF-1.4") (log (EvFileRead "/tmp/doc.png") downloaded_state)) /\
  exists bytes pages,
    ocr_service fine_world 0 bytes = inr pages /\
    [[("0", "raw text")]]
    = map (fun p => [(pretty (page_number p - 1), String.concat " " (lines p))]) pages.
Proof.
  assert (H : analyze_document fine_world "/tmp/doc.png" downloaded_state
              = (Ok [[("0", "raw text")]],
                 log (EvAnalyze "%PDF-1.4")
                   (log (EvFileRead "/tmp/doc.png") downloaded_state))).
  { vm_compute. reflexivity. }
  split; [exact H|].
  destruct (analyze_document_pages fine_world "/tmp/doc.png" downloaded_state _ _ H)
    as (bytes & pages & _ & Hs & Hout & _).
  exists bytes, pages. split; [exact Hs | exact Hout].
Defined.

Lemma metadata_of_record_without_json_data :
  doc_json_data cached_doc = None /\
  get_metadata json_world (doc_id cached_doc) final_assignment_fields
    (store_of [cached_doc])
  = (Ok (VDict []),
     log (EvCompletion (extraction_messages "" final_assignment_fields))
       (log (EvFindOne (doc_id cached_doc)) (store_of [cached_doc]))).
Proof.
  split; [reflexivity|].
  etrans.
  - exact (get_metadata_without_json_data json_world (doc_id cached_doc)
             final_assignment_fields (store_of [cached_doc]) cached_doc
             eq_refl (or_introl eq_refl)).
  - vm_compute. reflexivity.
Defined.

Lemma cached_record_keeps_ocr_output :
  store_find_one (doc_id cached_doc) (collection (store_of [cached_doc])) = Some cached_doc /\
  exists d',
    store_find_one (doc_id cached_doc)
      (collection (process_document fine_world cached_doc (store_of [cached_doc])).2)
    = Some d' /\
    doc_ocr_output d' = doc_ocr_output cached_doc.
Proof.
  split; [reflexivity|].
  destruct (cached_ocr_output_is_preserved fine_world cached_doc
              (store_of [cached_doc]) [("0", "raw text")] [] eq_refl eq_refl)
    as ((d' & Hd' & Hoc & _) & _).
  exists d'. split; [exact Hd' | exact Hoc].
Defined.

Lemma retry_on_flaky_service :
  exists s4,
    extract_and_finish flaky_world cached_doc (store_of [cached_doc])
    = update_one (doc_id cached_doc)
        [ SetStatus processed; SetProcessedDate "2024-05-01T10:00:00+00:00";
          SetFinalRelease (VDict []); SetFinalAssignment (VDict []) ] s4 /\
    count (is_extract Assignment) (trace s4) = 2%nat.
Proof.
  set (call := get_metadata_for_final_assignment flaky_world (doc_id cached_doc)).
  set (e := Exn OpenAIError "Connection error.").
  set (s2 := (call (log EvNow (store_of [cached_doc]))).2).
  set (s3 := (call (log (EvPrint ("Error getting final_assignment for document "
                                    +:+ oid_str (doc_id cached_doc) +:+ ": "
                                    +:+ exn_str e)) s2)).2).
  set (s4 := (extract_with_retry
                (get_metadata_for_final_release flaky_world (doc_id cached_doc))
                "final_release" (doc_id cached_doc) s3).2).
  exists s4.
  apply (retry_stores_second_result flaky_world cached_doc (store_of [cached_doc])
           s2 s3 s4 e (VDict []) (VDict [])); vm_compute; reflexivity.
Defined.

(** ** Further properties of the pipeline *)

(** A run of [process_document] changes no record but the one with the
    [_id] of its document, and no record changes its [_id]. *)
Theorem process_document_changes_only_its_record (W : World) (doc : document)
    (s : state) :
  Forall2 (fun d d' => doc_id d' = doc_id d /\ (doc_id d <> doc_id doc -> d' = d))
    (collection s) (collection (process_document W doc s).2).
Proof. apply (process_document_touch W doc s). Qed.

(** Records that are already [processed] are not picked up: when every
    record is [processed], a pass only queries the store. *)
Theorem processed_records_are_skipped (W : World) (s : state) :
  Forall (fun d => doc_status_of d = processed) (collection s) ->
  process_documents W s = (Ok tt, log EvFind s).
Proof.
  intros H. unfold process_documents, mbind, M_bind, find_pending.
  assert (E : filter (fun d => pending d = true) (collection s) = []).
  { induction H as [|d c Hd _ IH]; [done|].
    rewrite filter_cons_False; [done|]. unfold pending. by rewrite Hd. }
  by rewrite E.
Qed.

Lemma processed_record_is_skipped :
  process_documents fine_world
    (store_of [apply_set fresh_doc (SetStatus processed)])
  = (Ok tt, log EvFind (store_of [apply_set fresh_doc (SetStatus processed)])).
Proof.
  apply processed_records_are_skipped. repeat constructor.
Defined.

(** The whole pipeline on one fresh record: the OCR text [raw text] and
    its correction [clean text] are stored under the page key [0], with the
    status [processed], the date, and the two field maps. *)
Theorem end_to_end_on_fresh_record :
  process_documents fine_world (store_of [fresh_doc])
  = (Ok tt,
     {| collection :=
          [ {| doc_id := doc_id fresh_doc;
               doc_status_of := processed;
               doc_image := Some "http://x/doc.png";
               doc_ocr_output := Some [[("0", "raw text")]];
               doc_json_data := Some [[("0", "clean text")]];
               doc_processed_date := Some "2024-05-01T10:00:00+00:00";
               doc_final_assignment := Some (VDict []);
               doc_final_release := Some (VDict []) |} ];
        files := ∅;
        trace := trace (process_documents fine_world (store_of [fresh_doc])).2 |}).
Proof. vm_compute. reflexivity. Qed.

(** ** The HTTP trigger *)

(** [POST /process] never fails: whatever happens to the documents, the
    handler returns the fixed message with the status code 200, after one
    pass of the batch driver. *)
Theorem process_route_always_answers_200 (W : World) (s : state) :
  process_route W s
  = (Ok {| response_content := [("message", "Documents processed successfully")];
          response_status := 200 |},
     (process_documents W s).2).
Proof.
  unfold process_route, mbind, M_bind.
  pose proof (for_each_ok W (filter (fun d => pending d = true) (collection s))
                (log EvFind s)) as H.
  change (for_each (filter (fun d => pending d = true) (collection s))
            (process_document W) (log EvFind s))
    with (process_documents W s) in H.
  destruct (process_documents W s) as [r s']. simpl in H. by subst r.
Qed.

(** ** What a pass leaves alone, and in which order it works *)

#[global] Instance touch_in_preorder ids : PreOrder (touch_in ids).
Proof.
  split; unfold touch_in.
  - intros s. by apply Forall_Forall2_diag, Forall_forall.
  - intros x y z Hxy Hyz.
    eapply Forall2_trans; [|exact Hxy|exact Hyz].
    simpl. intros a b c [Hab Hab'] [Hbc Hbc']. split; [congruence|].
    intros Hne. rewrite Hbc', Hab'; congruence.
Qed.

Lemma touch_touch_in id ids s s' : id ∈ ids -> touch id s s' -> touch_in ids s s'.
Proof.
  unfold touch, touch_in. intros Hin H.
  eapply Forall2_impl; [exact H|]. simpl. intros d d' [Hid Hsame].
  split; [done|]. intros Hni. apply Hsame. intros E. apply Hni. by rewrite E.
Qed.

Lemma touch_in_mono ids ids' s s' : ids ⊆ ids' -> touch_in ids s s' -> touch_in ids' s s'.
Proof.
  unfold touch_in. intros Hsub H.
  eapply Forall2_impl; [exact H|]. simpl. intros d d' [Hid Hsame].
  split; [done|]. intros Hni. apply Hsame. intros E. by apply Hni, Hsub.
Qed.

Lemma for_each_touch_in W docs s :
  touch_in (map doc_id docs) s (for_each docs (process_document W) s).2.
Proof.
  revert s. induction docs as [|d rest IH]; intros s; [reflexivity|].
  rewrite for_each_cons. etrans.
  - apply (touch_touch_in (doc_id d)); [left | apply process_document_touch].
  - eapply touch_in_mono; [|apply IH]. simpl. intros x Hx. by right.
Qed.

Lemma NoDup_doc_id_eq (c : list document) d1 d2 :
  NoDup (map doc_id c) -> d1 ∈ c -> d2 ∈ c -> doc_id d1 = doc_id d2 -> d1 = d2.
Proof.
  intros Hnd H1 H2 E.
  apply list_elem_of_lookup in H1 as [i Hi].
  apply list_elem_of_lookup in H2 as [j Hj].
  assert (i = j) as ->.
  { eapply NoDup_lookup; [exact Hnd| |].
    - by rewrite list_lookup_fmap, Hi.
    - by rewrite list_lookup_fmap, Hj, E. }
  congruence.
Qed.

Lemma pass_settles_at W s i d d' :
  NoDup (map doc_id (collection s)) ->
  collection s !! i = Some d ->
  collection (process_documents W s).2 !! i = Some d' ->
  pending d = true ->
  doc_status_of d' = processed \/ doc_status_of d' = failed.
Proof.
  intros Hnd Hd Hd' Hp.
  set (docs := filter (fun d => pending d = true) (collection s)).
  change (process_documents W s)
    with (for_each docs (process_document W) (log EvFind s)) in *.
  pose proof (for_each_ids W docs (log EvFind s)) as Hids. simpl in Hids.
  assert (Hid : doc_id d' = doc_id d).
  { assert (H1 : map doc_id (collection s) !! i = Some (doc_id d))
      by (by rewrite list_lookup_fmap, Hd).
    rewrite <- Hids, list_lookup_fmap, Hd' in H1. by injection H1. }
  apply (for_each_settles W docs (log EvFind s) (doc_id d)).
  - right. apply list_elem_of_fmap. exists d. split; [done|].
    apply list_elem_of_filter. split; [done|]. by eapply list_elem_of_lookup_2.
  - rewrite <- Hid. apply store_find_one_NoDup.
    + by rewrite Hids.
    + by eapply list_elem_of_lookup_2.
Qed.

(** A pass leaves every record that is already [processed] exactly as it
    is, and afterwards every record is [processed] or [failed]. *)
Theorem pass_leaves_processed_records_alone (W : World) (s : state) :
  NoDup (map doc_id (collection s)) ->
  Forall2
    (fun d d' =>
       (doc_status_of d = processed -> d' = d) /\
       (doc_status_of d' = processed \/ doc_status_of d' = failed))
    (collection s) (collection (process_documents W s).2).
Proof.
  intros Hnd.
  set (docs := filter (fun d => pending d = true) (collection s)).
  pose proof (for_each_touch_in W docs (log EvFind s)) as Ht.
  change (for_each docs (process_document W) (log EvFind s))
    with (process_documents W s) in Ht.
  unfold touch_in in Ht. simpl in Ht.
  apply Forall2_same_length_lookup_2; [by eapply Forall2_length|].
  intros i d d' Hd Hd'.
  destruct (Forall2_lookup_lr _ _ _ _ _ _ Ht Hd Hd') as [Hid Hsame].
  pose proof (pass_settles_at W s i d d' Hnd Hd Hd') as Hset.
  assert (Hkeep : doc_status_of d = processed -> d' = d).
  { intros Hp. apply Hsame. intros Hin.
    apply list_elem_of_fmap in Hin as (d2 & E & Hin2).
    apply list_elem_of_filter in Hin2 as [Hpend Hin2].
    assert (d = d2) as <-.
    { eapply NoDup_doc_id_eq; eauto. by eapply list_elem_of_lookup_2. }
    unfold pending in Hpend. by rewrite Hp in Hpend. }
  split; [done|].
  destruct (doc_status_of d) eqn:Est.
  - apply Hset. unfold pending. by rewrite Est.
  - apply Hset. unfold pending. by rewrite Est.
  - left. by rewrite (Hkeep eq_refl).
  - apply Hset. unfold pending. by rewrite Est.
Qed.

Lemma started_app t1 t2 : started (t1 ++ t2) = started t1 ++ started t2.
Proof. unfold started. apply omap_app. Qed.

Lemma started_none t : Forall not_start t -> started t = [].
Proof.
  induction 1 as [|ev t Hev _ IH]; [done|].
  change (ev :: t) with ([ev] ++ t). rewrite started_app, IH, app_nil_r.
  destruct ev as [id sets| | | | | | | | | | |]; try done.
  destruct sets as [|[[]| | | | |] [|]]; done.
Qed.

(** After its first write, a run sets the status [processing] no more. *)
Lemma process_document_starts_once W doc s :
  exists t,
    trace (process_document W doc s).2
    = trace s ++ EvUpdateOne (doc_id doc) [SetStatus processing] :: t /\
    Forall not_start t.
Proof.
  assert (Hev : forall ev, not_start ev -> admits (emits not_start) ev).
  { intros ev. apply admits_emits. }
  assert (Hup : forall sets,
             not_start (EvUpdateOne (doc_id doc) sets) ->
             keeps (emits not_start) (update_one (doc_id doc) sets)).
  { intros sets. apply keeps_emits_update_one. }
  destruct (process_document_after_first_update W (emits not_start)
              (fun text => Hev (EvPrint text) I) doc) with (s := s)
    as (t & Et & Ht).
  - intros l. apply keeps_process_cached; [apply _|by intros; apply Hev|].
    split; [by intros; apply Hev | by intros; apply Hup].
  - by apply Hup.
  - repeat split; try (by intros; apply Hev); by intros; apply Hup.
  - by intros; apply Hev.
  - by intros; apply Hev.
  - by intros; apply Hev.
  - intros path data. by apply keeps_emits_write_file.
  - intros path. by apply keeps_emits_os_remove.
  - exists t. split; [|done]. rewrite Et. simpl. by rewrite <- app_assoc.
Qed.

Lemma for_each_started W docs s :
  exists t,
    trace (for_each docs (process_document W) s).2 = trace s ++ t /\
    started t = map doc_id docs.
Proof.
  revert s. induction docs as [|d rest IH]; intros s.
  - exists []. by rewrite app_nil_r.
  - rewrite for_each_cons.
    destruct (process_document_starts_once W d s) as (t1 & E1 & H1).
    destruct (IH (process_document W d s).2) as (t2 & E2 & H2).
    exists ((EvUpdateOne (doc_id d) [SetStatus processing] :: t1) ++ t2).
    split; [by rewrite E2, E1, <- app_assoc|].
    rewrite started_app, H2.
    change (started (EvUpdateOne (doc_id d) [SetStatus processing] :: t1))
      with (doc_id d :: started t1).
    by rewrite (started_none t1 H1).
Qed.

(** A pass works on the pending records one after the other, in store
    order, and starts each of them exactly once: the runs that begin in the
    trace of the pass are those of the records that were [notprocessed],
    [processing] or [failed], in the order of the collection. *)
Theorem pass_starts_each_pending_record_once_in_order (W : World) (s : state) :
  exists t,
    trace (process_documents W s).2 = trace s ++ EvFind :: t /\
    started t = map doc_id (filter (fun d => pending d = true) (collection s)).
Proof.
  destruct (for_each_started W (filter (fun d => pending d = true) (collection s))
              (log EvFind s)) as (t & Et & Hs).
  exists t. split; [|done].
  change (process_documents W s)
    with (for_each (filter (fun d => pending d = true) (collection s))
            (process_document W) (log EvFind s)).
  rewrite Et. simpl. by rewrite <- app_assoc.
Qed.

(** ** What a processed record holds *)

Lemma paged_same_collection id s s' :
  same_collection s s' -> paged id s -> paged id s'.
Proof. unfold same_collection, paged. by intros ->. Qed.

Lemma status_failed_same_collection id s s' :
  same_collection s s' -> status_failed id s -> status_failed id s'.
Proof. unfold same_collection, status_failed. by intros ->. Qed.

Lemma status_failed_update id s :
  status_failed id (update_one id [SetStatus failed] s).2.
Proof.
  intros d. simpl. rewrite store_find_one_update.
  destruct (store_find_one id (collection s)); simpl; [|done]. by intros [= <-].
Qed.

Section Complete.

Variable W : World.

Lemma process_cached_pages doc l s :
  l <> [] ->
  wp (process_cached W doc l)
    (fun r s' => r <> Ok Returned /\ (r = Ok Continue -> paged (doc_id doc) s')) s.
Proof.
  intros Hl. unfold wp, process_cached, mbind, M_bind.
  destruct (process_ocr_output W l s) as [[out|e] s1] eqn:E; simpl; [|done].
  split; [done|]. intros _ d. simpl. rewrite store_find_one_update.
  destruct (store_find_one (doc_id doc) (collection s1)) as [d0|]; simpl; [|done].
  intros [= <-]. exists l, out. repeat split; [done|].
  by eapply process_ocr_output_aligned.
Qed.

Lemma ocr_attempt_pages doc path s :
  wp (ocr_attempt W doc path)
    (fun r s' =>
       (r = Ok Continue -> paged (doc_id doc) s') /\
       (r = Ok Returned -> status_failed (doc_id doc) s')) s.
Proof.
  unfold ocr_attempt. apply wp_try_except. apply wp_bind. apply wp_any.
  intros [extracted|e] s1.
  - destruct extracted as [|p l].
    + unfold wp. split; [done|]. intros _.
      eapply status_failed_same_collection; [|apply status_failed_update]. done.
    + eapply wp_mono; [apply (process_cached_pages doc (p :: l) s1); done|].
      intros [[]|e] s2 [Hn Hp].
      * split; [done|]. by intros.
      * by destruct Hn.
      * unfold wp. split; [done|]. intros _. apply status_failed_update.
  - unfold wp. split; [done|]. intros _. apply status_failed_update.
Qed.

Lemma ocr_and_correct_pages doc path s :
  wp (ocr_and_correct W doc path)
    (fun r s' =>
       (r = Ok Continue -> paged (doc_id doc) s') /\
       (r = Ok Returned -> status_failed (doc_id doc) s')) s.
Proof.
  unfold ocr_and_correct. apply wp_try_finally.
  eapply wp_mono; [apply ocr_attempt_pages|].
  intros r s1 [Hc Hr]. apply (wp_keeps same_collection).
  - apply keeps_same_collection_os_remove.
  - intros [u|e] s2 Hsame; [|by split].
    split; intros E.
    + eapply paged_same_collection; eauto.
    + eapply status_failed_same_collection; eauto.
Qed.

Lemma process_uncached_pages doc s :
  wp (process_uncached W doc)
    (fun r s' =>
       (r = Ok Continue -> paged (doc_id doc) s') /\
       (r = Ok Returned -> status_failed (doc_id doc) s')) s.
Proof.
  unfold process_uncached.
  repeat (apply wp_bind; apply wp_any; intros [?|?] ?; [|by split]).
  apply ocr_and_correct_pages.
Qed.

Lemma keeps_same_collection_extract_with_retry doc name (sch : schema) :
  keeps same_collection
    (extract_with_retry
       (match sch with
        | Assignment => get_metadata_for_final_assignment W (doc_id doc)
        | Release => get_metadata_for_final_release W (doc_id doc)
        end) name (doc_id doc)).
Proof.
  apply keeps_extract_with_retry; [apply _|intros; apply admits_same_collection|].
  destruct sch.
  - apply keeps_get_metadata_for_final_assignment; try apply _;
      intros; apply admits_same_collection.
  - apply keeps_get_metadata_for_final_release; try apply _;
      intros; apply admits_same_collection.
Qed.

Lemma extract_and_finish_completes doc s :
  paged (doc_id doc) s ->
  wp (extract_and_finish W doc)
    (fun r s' => is_ok r -> failed_or_complete (doc_id doc) s') s.
Proof.
  intros Hp. unfold extract_and_finish.
  apply wp_bind. apply (wp_keeps same_collection).
  { apply keeps_now_isoformat; try apply _; intros; apply admits_same_collection. }
  intros [iso|e] s1 H1; [|done].
  apply wp_bind. apply (wp_keeps same_collection).
  { apply (keeps_same_collection_extract_with_retry doc _ Assignment). }
  intros [fa|e] s2 H2; [|done].
  apply wp_bind. apply (wp_keeps same_collection).
  { apply (keeps_same_collection_extract_with_retry doc _ Release). }
  intros [fr|e] s3 H3; [|done].
  apply wp_bind. apply (wp_keeps same_collection).
  { apply keeps_read_local; try apply _; intros; apply admits_same_collection. }
  intros [frv|e] s4 H4; [|done].
  apply wp_bind. apply (wp_keeps same_collection).
  { apply keeps_read_local; try apply _; intros; apply admits_same_collection. }
  intros [fav|e] s5 H5; [|done].
  unfold wp. intros _ d. simpl. rewrite store_find_one_update.
  assert (Hcol : collection s5 = collection s).
  { unfold same_collection in *. congruence. }
  rewrite Hcol.
  destruct (store_find_one (doc_id doc) (collection s)) as [d0|] eqn:Hd; simpl; [|done].
  intros [= <-]. right.
  destruct (Hp d0 Hd) as (o & j & Ho & Hne & Hj & Hal).
  split; [done|]. split; [|by repeat split; eexists].
  exists o, j. by repeat split.
Qed.

(** After a run, the stored record of the document is [failed], or it is
    [processed] and complete. *)
Lemma process_document_completes doc s :
  wp (process_document W doc)
    (fun r s' => failed_or_complete (doc_id doc) s') s.
Proof.
  unfold process_document. apply wp_try_except.
  eapply wp_mono with
    (Q := fun r s' => is_ok r -> failed_or_complete (doc_id doc) s').
  - apply wp_bind. apply wp_any. intros [[]|e0] s1; [|done].
    unfold process_document_steps. apply wp_bind.
    eapply wp_mono with
      (Q := fun r s' =>
              (r = Ok Continue -> paged (doc_id doc) s') /\
              (r = Ok Returned -> status_failed (doc_id doc) s')).
    + destruct (doc_ocr_output doc) as [[|p rest]|].
      * apply process_uncached_pages.
      * eapply wp_mono; [apply (process_cached_pages doc (p :: rest) s1); done|].
        intros r s' [Hn Hp]. split; [done|]. intros E. by destruct Hn.
      * apply process_uncached_pages.
    + intros [[]|e1] s2 [Hc Hr]; [| |done].
      * apply extract_and_finish_completes. by apply Hc.
      * unfold wp. intros _ d Hd. left. by apply (Hr eq_refl).
  - intros [[]|e] s' H.
    + by apply H.
    + unfold wp. intros d. simpl. rewrite store_find_one_update.
      destruct (store_find_one (doc_id doc) (collection s')); simpl; [|done].
      intros [= <-]. by left.
Qed.

End Complete.

(** A record that a run of [process_document] leaves [processed] is
    complete: it holds a non-empty [ocr_output], a [json_data] aligned with
    it page by page, a [processed_date] and both field maps. *)
Theorem processed_record_is_complete (W : World) (doc : document) (s : state)
    (d' : document) :
  store_find_one (doc_id doc) (collection (process_document W doc s).2) = Some d' ->
  doc_status_of d' = processed ->
  exists o j iso fa fr,
    doc_ocr_output d' = Some o /\ o <> [] /\
    doc_json_data d' = Some j /\ Forall2 same_page_key o j /\
    doc_processed_date d' = Some iso /\
    doc_final_assignment d' = Some fa /\
    doc_final_release d' = Some fr.
Proof.
  intros Hd Hp.
  destruct (process_document_completes W doc s d' Hd) as [Hf|Hc]; [congruence|].
  destruct Hc as (_ & (o & j & Ho & Hne & Hj & Hal) & [iso Hi] & [fa Hfa] & [fr Hfr]).
  by exists o, j, iso, fa, fr.
Qed.

(** ** What a failed run leaves alone *)

#[global] Instance metadata_kept_preorder : PreOrder metadata_kept.
Proof.
  split; unfold metadata_kept.
  - intros s. by apply Forall_Forall2_diag, Forall_forall.
  - intros x y z Hxy Hyz.
    eapply Forall2_trans; [|exact Hxy|exact Hyz].
    simpl. intros a b c (? & ? & ? & ?) (? & ? & ? & ?). repeat split; congruence.
Qed.

Lemma admits_metadata_kept ev : admits metadata_kept ev.
Proof.
  intros s. unfold metadata_kept. simpl. by apply Forall_Forall2_diag, Forall_forall.
Qed.

Lemma keeps_metadata_update_one id sets :
  (forall d, doc_processed_date (apply_sets sets d) = doc_processed_date d /\
             doc_final_assignment (apply_sets sets d) = doc_final_assignment d /\
             doc_final_release (apply_sets sets d) = doc_final_release d) ->
  keeps metadata_kept (update_one id sets).
Proof.
  intros H s. unfold metadata_kept. simpl.
  induction (collection s) as [|d c IH]; simpl; [constructor|].
  case_decide.
  - constructor; [by rewrite apply_sets_id|].
    by apply Forall_Forall2_diag, Forall_forall.
  - by constructor.
Qed.

Lemma keeps_metadata_write_file W path data :
  keeps metadata_kept (write_file W path data).
Proof.
  intros s. unfold metadata_kept.
  rewrite (keeps_same_collection_write_file W path data s).
  by apply Forall_Forall2_diag, Forall_forall.
Qed.

Lemma keeps_metadata_os_remove path : keeps metadata_kept (os_remove path).
Proof.
  intros s. unfold metadata_kept.
  rewrite (keeps_same_collection_os_remove path s).
  by apply Forall_Forall2_diag, Forall_forall.
Qed.

Lemma status_processed_update id iso fr fa s :
  status_processed id
    ((update_one id
        [SetStatus processed; SetProcessedDate iso; SetFinalRelease fr;
         SetFinalAssignment fa] s).2).
Proof.
  intros d. simpl. rewrite store_find_one_update.
  destruct (store_find_one id (collection s)); simpl; [|done]. by intros [= <-].
Qed.

Section Failed.

Variables (W : World) (doc : document).

Lemma keeps_metadata_cached l : keeps metadata_kept (process_cached W doc l).
Proof.
  apply keeps_process_cached; [apply _|intros; apply admits_metadata_kept|].
  split; [intros; apply admits_metadata_kept|].
  intros j. by apply keeps_metadata_update_one.
Qed.

Lemma keeps_metadata_uncached : keeps metadata_kept (process_uncached W doc).
Proof.
  apply keeps_process_uncached; try apply _;
    try (by intros; apply admits_metadata_kept).
  - apply keeps_metadata_cached.
  - by apply keeps_metadata_update_one.
  - intros path data. apply keeps_metadata_write_file.
  - intros path. apply keeps_metadata_os_remove.
Qed.

Lemma keeps_metadata_mark_failed e : keeps metadata_kept (mark_failed doc e).
Proof.
  apply keeps_mark_failed; [apply _|intros; apply admits_metadata_kept|].
  by apply keeps_metadata_update_one.
Qed.

(** The last update is the only one that writes the metadata, and a run
    that reaches it ends [processed]. *)
Lemma extract_and_finish_metadata s0 s :
  metadata_kept s0 s ->
  wp (extract_and_finish W doc)
    (fun r s' =>
       match r with
       | Ok _ => status_processed (doc_id doc) s'
       | Raise _ => metadata_kept s0 s'
       end) s.
Proof.
  intros H0. unfold extract_and_finish.
  apply wp_bind. apply (wp_keeps metadata_kept).
  { apply keeps_now_isoformat; try apply _; intros; apply admits_metadata_kept. }
  intros [iso|e] s1 H1; [|by etrans].
  apply wp_bind. apply (wp_keeps metadata_kept).
  { apply keeps_extract_with_retry; [apply _|intros; apply admits_metadata_kept|].
    apply keeps_get_metadata_for_final_assignment; try apply _;
      intros; apply admits_metadata_kept. }
  intros [fa|e] s2 H2; [|by etrans; [|etrans]].
  apply wp_bind. apply (wp_keeps metadata_kept).
  { apply keeps_extract_with_retry; [apply _|intros; apply admits_metadata_kept|].
    apply keeps_get_metadata_for_final_release; try apply _;
      intros; apply admits_metadata_kept. }
  intros [fr|e] s3 H3; [|by etrans; [|etrans; [|etrans]]].
  apply wp_bind. apply (wp_keeps metadata_kept).
  { apply keeps_read_local; try apply _; intros; apply admits_metadata_kept. }
  intros [frv|e] s4 H4; [|by etrans; [|etrans; [|etrans; [|etrans]]]].
  apply wp_bind. apply (wp_keeps metadata_kept).
  { apply keeps_read_local; try apply _; intros; apply admits_metadata_kept. }
  intros [fav|e] s5 H5; [|by etrans; [|etrans; [|etrans; [|etrans; [|etrans]]]]].
  unfold wp. apply status_processed_update.
Qed.

Lemma process_document_metadata s :
  wp (process_document W doc)
    (fun r s' => status_processed (doc_id doc) s' \/ metadata_kept s s') s.
Proof.
  unfold process_document. apply wp_try_except.
  apply wp_bind. apply (wp_keeps metadata_kept).
  { by apply keeps_metadata_update_one. }
  intros [[]|e0] s1 H1.
  - unfold process_document_steps. apply wp_bind. apply (wp_keeps metadata_kept).
    { destruct (doc_ocr_output doc) as [[|p rest]|];
        auto using keeps_metadata_cached, keeps_metadata_uncached. }
    intros [[]|e1] s2 H2.
    + eapply wp_mono; [apply (extract_and_finish_metadata s s2); by etrans|].
      intros [[]|e2] s3 H3; [by left|].
      apply (wp_keeps metadata_kept); [apply keeps_metadata_mark_failed|].
      intros r s4 H4. right. by etrans.
    + unfold wp. right. by etrans.
    + apply (wp_keeps metadata_kept); [apply keeps_metadata_mark_failed|].
      intros r s3 H3. right. by etrans; [|etrans].
  - apply (wp_keeps metadata_kept); [apply keeps_metadata_mark_failed|].
    intros r s2 H2. right. by etrans.
Qed.

End Failed.

(** A run of [process_document] that leaves its record [failed] has not
    written [processed_date], [final_assignment] or [final_release]: the
    stored values are those from before the run. *)
Theorem failed_run_writes_no_metadata (W : World) (doc : document) (s : state)
    (d0 d' : document) :
  store_find_one (doc_id doc) (collection s) = Some d0 ->
  store_find_one (doc_id doc) (collection (process_document W doc s).2) = Some d' ->
  doc_status_of d' = failed ->
  doc_processed_date d' = doc_processed_date d0 /\
  doc_final_assignment d' = doc_final_assignment d0 /\
  doc_final_release d' = doc_final_release d0.
Proof.
  intros Hd0 Hd' Hf.
  destruct (process_document_metadata W doc s) as [Hp|Hk].
  - specialize (Hp d' Hd'). congruence.
  - destruct (Forall2_find_one _ _ _ _ _ Hk Hd0) as (d'' & Hd'' & H).
    rewrite Hd' in Hd''. by injection Hd'' as <-.
Qed.

(** ** Text correction, page by page *)

Lemma get_openai_response_run W messages s :
  get_openai_response W messages s
  = match completion W (count is_completion (trace s)) messages with
    | inr text => (Ok (strip text), log (EvCompletion messages) s)
    | inl msg =>
        (Raise (Exn OpenAIError msg),
         log (EvPrint ("Error fetching response from OpenAI: " +:+ msg))
           (log (EvCompletion messages) s))
    end.
Proof.
  unfold get_openai_response, try_except, mbind, M_bind, chat_completions_create.
  by destruct (completion W _ _).
Qed.

Lemma correct_pages_results W l acc s out s' :
  correct_pages W l acc s = (Ok out, s') ->
  exists vs rs,
    mapM page_text l = Some vs /\
    trace s' = trace s ++ map (fun v => EvCompletion (correction_messages v)) vs /\
    collection s' = collection s /\ files s' = files s /\
    out = acc ++ rs /\ length rs = length l /\
    forall (i : nat) k v rest,
      l !! i = Some ((k, v) :: rest) ->
      exists text,
        completion W (count is_completion (trace s) + i)%nat (correction_messages v)
        = inr text /\
        rs !! i = Some [(k, strip text)].
Proof.
  revert acc s. induction l as [|p l IH]; intros acc s; simpl.
  - intros [= <- <-]. exists [], []. rewrite !app_nil_r. by repeat split.
  - destruct p as [|[k v] rest]; [done|].
    unfold mbind at 1, M_bind at 1. simpl.
    unfold mbind at 1, M_bind at 1. rewrite get_openai_response_run.
    destruct (completion W (count is_completion (trace s)) (correction_messages v))
      as [msg|text] eqn:Hc; [done|].
    unfold mbind at 1, M_bind at 1. simpl.
    intros H. apply IH in H as (vs & rs & Hvs & Ht & Hcol & Hf & -> & Hlen & Hidx).
    exists (v :: vs), ([(k, strip text)] :: rs).
    simpl in *. rewrite Hvs. simpl. rewrite count_snoc in Hidx. simpl in Hidx.
    repeat split; try done.
    + by rewrite Ht, <- app_assoc.
    + by rewrite <- app_assoc.
    + by rewrite Hlen.
    + intros [|i] k0 v0 rest0 Hl; simpl in *.
      * injection Hl as -> -> ->. exists text. by rewrite Nat.add_0_r.
      * destruct (Hidx i k0 v0 rest0 Hl) as (text0 & H1 & H2).
        exists text0. split; [|done].
        by replace (count is_completion (trace s) + S i)%nat
          with (count is_completion (trace s) + 1 + i)%nat by lia.
Qed.

(** How a run of [correct_pages] fails: at the first page that is an empty
    dict, or at the first completion that fails. *)
Lemma correct_pages_failure W l acc s e s' :
  correct_pages W l acc s = (Raise e, s') ->
  collection s' = collection s /\ files s' = files s /\
  exists (n : nat) vs,
    mapM page_text (take n l) = Some vs /\
    ((l !! n = Some [] /\
      e = Exn IndexError "list index out of range" /\
      trace s' = trace s ++ map (fun v => EvCompletion (correction_messages v)) vs) \/
     (exists k v rest msg,
        l !! n = Some ((k, v) :: rest) /\
        completion W (count is_completion (trace s) + n)%nat (correction_messages v)
        = inl msg /\
        e = Exn OpenAIError msg /\
        trace s'
        = trace s ++ map (fun v => EvCompletion (correction_messages v)) vs
            ++ [ EvCompletion (correction_messages v);
                 EvPrint ("Error fetching response from OpenAI: " +:+ msg) ])).
Proof.
  revert acc s. induction l as [|p l IH]; intros acc s; simpl; [done|].
  destruct p as [|[k v] rest].
  - intros [= <- <-]. repeat split. exists 0%nat, []. split; [done|].
    left. by rewrite app_nil_r.
  - unfold mbind at 1, M_bind at 1. simpl.
    unfold mbind at 1, M_bind at 1. rewrite get_openai_response_run.
    destruct (completion W (count is_completion (trace s)) (correction_messages v))
      as [msg|text] eqn:Hc.
    + intros [= <- <-]. repeat split. exists 0%nat, []. split; [done|].
      right. exists k, v, rest, msg. rewrite Nat.add_0_r. repeat split; try done.
      simpl. by rewrite <- app_assoc.
    + unfold mbind at 1, M_bind at 1. simpl.
      intros H. apply IH in H as (Hcol & Hf & n & vs & Hvs & Hcase).
      simpl in *. rewrite count_snoc in Hcase. simpl in Hcase.
      split; [done|]. split; [done|].
      exists (S n), (v :: vs). simpl. rewrite Hvs. split; [done|].
      destruct Hcase as [(Hl & -> & Ht)|(k0 & v0 & rest0 & msg & Hl & Hc0 & -> & Ht)].
      * left. repeat split; try done. by rewrite Ht, <- app_assoc.
      * right. exists k0, v0, rest0, msg. repeat split; try done.
        -- by replace (count is_completion (trace s) + S n)%nat
             with (count is_completion (trace s) + 1 + n)%nat by lia.
        -- by rewrite Ht, <- !app_assoc.
Qed.

(** The handler for [JSONDecodeError] never runs: nothing in the loop
    raises that class. *)
Lemma process_ocr_output_is_the_loop W l s :
  process_ocr_output W l s = correct_pages W l [] s.
Proof.
  unfold process_ocr_output, try_except_cls, try_except.
  destruct (correct_pages W l [] s) as [[out|e] s1] eqn:E; [done|].
  apply correct_pages_failure in E as (_ & _ & n & vs & _ & Hcase).
  destruct Hcase as [(_ & -> & _)|(k & v & rest & msg & _ & _ & -> & _)]; done.
Qed.


(** A failing [process_ocr_output] stops at the first page it cannot
    correct: the pages before it were requested in order, the failing page
    is an empty dict (no request for it) or its completion failed, no later
    page is requested, and the store and the files are unchanged. *)
Theorem process_ocr_output_stops_at_first_failure (W : World) (l : list page)
    (s s' : state) (e : exn) :
  process_ocr_output W l s = (Raise e, s') ->
  collection s' = collection s /\ files s' = files s /\
  exists (n : nat) vs,
    mapM page_text (take n l) = Some vs /\
    ((l !! n = Some [] /\
      e = Exn IndexError "list index out of range" /\
      trace s' = trace s ++ map (fun v => EvCompletion (correction_messages v)) vs) \/
     (exists k v rest msg,
        l !! n = Some ((k, v) :: rest) /\
        completion W (count is_completion (trace s) + n)%nat (correction_messages v)
        = inl msg /\
        e = Exn OpenAIError msg /\
        trace s'
        = trace s ++ map (fun v => EvCompletion (correction_messages v)) vs
            ++ [ EvCompletion (correction_messages v);
                 EvPrint ("Error fetching response from OpenAI: " +:+ msg) ])).
Proof.
  rewrite process_ocr_output_is_the_loop. apply correct_pages_failure.
Qed.

(** ** How the OCR adapter fails *)

(** [analyze_document] fails in two ways only: the file is missing, and
    then the OCR service is not called, or the service fails.  Either way it
    prints the error, raises it unchanged, returns no partial result and
    changes neither the store nor the files. *)
Theorem analyze_document_failure (W : World) (path : string) (s s' : state)
    (e : exn) :
  analyze_document W path s = (Raise e, s') ->
  collection s' = collection s /\ files s' = files s /\
  ((files s !! path = None /\
    exn_cls e = FileNotFoundError /\
    trace s'
    = trace s ++
        [EvFileRead path; EvPrint ("Error during document analysis: " +:+ exn_str e)]) \/
   (exists bytes msg,
      files s !! path = Some bytes /\
      ocr_service W (count is_analyze (trace s)) bytes = inl msg /\
      e = Exn OcrServiceError msg /\
      trace s'
      = trace s ++
          [ EvFileRead path; EvAnalyze bytes;
            EvPrint ("Error during document analysis: " +:+ msg) ])).
Proof.
  unfold analyze_document, try_except, mbind, M_bind, read_file.
  destruct (files s !! path) as [bytes|] eqn:Hf.
  - unfold begin_analyze_document.
    rewrite (count_log_other is_analyze (EvFileRead path) s eq_refl).
    destruct (ocr_service W (count is_analyze (trace s)) bytes) as [msg|pages] eqn:Ho;
      [|done].
    simpl. intros [= <- <-]. repeat split. right. exists bytes, msg.
    repeat split; try done. simpl. by rewrite <- !app_assoc.
  - simpl. intros [= <- <-]. repeat split. left.
    repeat split. simpl. by rewrite <- !app_assoc.
Qed.

(** ** The extraction adapter *)


(** A page of [json_data] that is an empty dict makes [get_metadata] raise
    [IndexError] before anything is sent to the completion service. *)
Theorem get_metadata_empty_page (W : World) (object_id : ObjectId)
    (fields : list (string * string)) (s : state) (d : document)
    (json_data : list page) :
  store_find_one object_id (collection s) = Some d ->
  doc_json_data d = Some json_data ->
  [] ∈ json_data ->
  get_metadata W object_id fields s
  = (Raise (Exn IndexError "list index out of range"), log (EvFindOne object_id) s).
Proof.
  intros Hd Hj Hin. rewrite (get_metadata_found W object_id fields s d Hd), Hj.
  simpl. assert (H : mapM page_text json_data = None).
  { apply mapM_None, Exists_exists. by exists []. }
  by rewrite H.
Qed.

(** [get_metadata] only reads: whatever its outcome, the store and the
    files are unchanged, it looks the record up once, and it sends at most
    one completion request, which is an extraction prompt for the given
    fields. *)
Theorem get_metadata_only_reads (W : World) (object_id : ObjectId)
    (fields : list (string * string)) (s : state) :
  collection (get_metadata W object_id fields s).2 = collection s /\
  files (get_metadata W object_id fields s).2 = files s /\
  exists t,
    trace (get_metadata W object_id fields s).2 = trace s ++ EvFindOne object_id :: t /\
    (requests t = [] \/
     exists c, requests t = [extraction_messages c fields]).
Proof.
  destruct (store_find_one object_id (collection s)) as [d|] eqn:Hd.
  - rewrite (get_metadata_found W object_id fields s d Hd).
    destruct (mapM page_text _) as [contents|].
    + simpl. destruct (completion W _ _) as [err|text];
        [|destruct (json_loads W (strip text)) as [msg|v]];
        (split; [done|]; split; [done|]); eexists; simpl;
        (split; [by rewrite <- !app_assoc|]); right; by eexists.
    + split; [done|]. split; [done|]. exists []. split; [done|]. by left.
  - rewrite (get_metadata_not_found W object_id fields s Hd).
    split; [done|]. split; [done|]. exists []. split; [done|]. by left.
Qed.

(** ** Failures before the OCR step *)

Section Download.

Variables (W : World) (doc : document) (s : state).
Hypothesis not_cached : doc_ocr_output doc = None \/ doc_ocr_output doc = Some [].

Let s1 := (update_one (doc_id doc) [SetStatus processing] s).2.

Lemma process_document_uncached :
  process_document W doc s
  = try_except
      (go ← process_uncached W doc;
       match go with
       | Returned => mret tt
       | Continue => extract_and_finish W doc
       end)
      (mark_failed doc) s1.
Proof.
  unfold process_document, process_document_steps, try_except at 1.
  unfold mbind at 1, M_bind at 1.
  change (update_one (doc_id doc) [SetStatus processing] s) with (Ok tt, s1).
  cbv beta iota.
  by destruct not_cached as [-> | ->].
Qed.

(** A record without cached OCR output and without [image]: the run
    fails on the missing key before any download, and the record is marked
    [failed]. *)
Theorem run_without_image :
  doc_image doc = None ->
  process_document W doc s = (Ok tt, failed_run doc s [] "'image'" (files s)).
Proof.
  intros Hi. rewrite process_document_uncached.
  unfold process_uncached, doc_getitem_image. rewrite Hi.
  unfold try_except, mbind, M_bind. simpl.
  unfold mark_failed, mbind, M_bind, update_one. subst s1. simpl.
  unfold failed_run, log, set_collection. simpl.
  f_equal. f_equal. by rewrite <- !app_assoc.
Qed.

(** A download that fails, in transport or with a status outside 2xx:
    the run writes no file, calls no OCR, and the record is marked [failed]. *)
Theorem run_with_failed_download url msg :
  doc_image doc = Some url ->
  http_get W (count is_http_get (trace s)) url = inl msg \/
  (exists response,
     http_get W (count is_http_get (trace s)) url = inr response /\
     ~ (200 <= status_code response <= 299) /\
     status_error response = msg) ->
  process_document W doc s = (Ok tt, failed_run doc s [EvHttpGet url] msg (files s)).
Proof.
  intros Hi Hh. rewrite process_document_uncached.
  unfold process_uncached, doc_getitem_image. rewrite Hi.
  unfold try_except, mbind, M_bind. simpl.
  unfold httpx_get. simpl. rewrite count_snoc, Nat.add_0_r.
  destruct Hh as [Hh|(response & Hh & Hcode & <-)]; rewrite Hh.
  - simpl. unfold mark_failed, mbind, M_bind, update_one. subst s1. simpl.
    unfold failed_run, log, set_collection. simpl.
    f_equal. f_equal. by rewrite <- !app_assoc.
  - unfold raise_for_status.
    assert (Hno : (200 <=? status_code response) && (status_code response <=? 299)
                  = false).
    { apply andb_false_iff.
      destruct (Z.leb_spec 200 (status_code response)); [|by left].
      destruct (Z.leb_spec (status_code response) 299); [|by right].
      destruct Hcode. lia. }
    rewrite Hno. simpl. unfold mark_failed, mbind, M_bind, update_one. subst s1. simpl.
    unfold failed_run, log, set_collection. simpl.
    f_equal. f_equal. by rewrite <- !app_assoc.
Qed.

(** A temporary file that cannot be written: the run calls no OCR and
    marks the record [failed]; it does not remove the file, so a file that
    was created before the write failed is left behind, empty. *)
Theorem run_with_failed_write url response msg :
  doc_image doc = Some url ->
  http_get W (count is_http_get (trace s)) url = inr response ->
  200 <= status_code response <= 299 ->
  file_write W (count is_file_write (trace s)) (temp_path W url) = OpenFails msg \/
  file_write W (count is_file_write (trace s)) (temp_path W url) = WriteFails msg ->
  process_document W doc s
  = (Ok tt,
     failed_run doc s [EvHttpGet url; EvFileWrite (temp_path W url)] msg
       (match file_write W (count is_file_write (trace s)) (temp_path W url) with
        | WriteFails _ => <[temp_path W url := EmptyString]> (files s)
        | _ => files s
        end)).
Proof.
  intros Hi Hh Hcode Hw. rewrite process_document_uncached.
  unfold process_uncached, doc_getitem_image. rewrite Hi.
  unfold try_except, mbind, M_bind. simpl.
  unfold httpx_get. simpl. rewrite count_snoc, Nat.add_0_r. rewrite Hh.
  unfold raise_for_status.
  assert (Hok : (200 <=? status_code response) && (status_code response <=? 299) = true).
  { apply andb_true_iff. split; apply Z.leb_le; lia. }
  rewrite Hok. simpl.
  unfold write_file. simpl. rewrite !count_snoc, !Nat.add_0_r.
  fold (temp_path W url).
  destruct Hw as [Hw|Hw]; rewrite Hw; simpl;
    unfold mark_failed, mbind, M_bind, update_one; subst s1; simpl;
    unfold failed_run, log, set_collection, set_files; simpl;
    f_equal; f_equal; by rewrite <- !app_assoc.
Qed.

End Download.

(** ** Failures of the text correction *)

(** On the cached branch a failing correction reaches the outer handler:
    the run prints [Processing failed], marks the record [failed] and
    writes neither [ocr_output] nor [json_data]. *)
Theorem correction_failure_on_cached_branch (W : World) (doc : document)
    (s s2 : state) (p : page) (rest : list page) (e : exn) :
  doc_ocr_output doc = Some (p :: rest) ->
  process_ocr_output W (p :: rest)
    (update_one (doc_id doc) [SetStatus processing] s).2 = (Raise e, s2) ->
  process_document W doc s
  = (Ok tt,
     {| collection :=
          store_update (doc_id doc) [SetStatus failed]
            (store_update (doc_id doc) [SetStatus processing] (collection s));
        files := files s;
        trace :=
          trace s2 ++
            [ EvPrint ("Processing failed for document " +:+ oid_str (doc_id doc)
                         +:+ ": " +:+ exn_str e);
              EvUpdateOne (doc_id doc) [SetStatus failed] ] |}).
Proof.
  intros Hc He.
  assert (Hsame : collection s2
                  = store_update (doc_id doc) [SetStatus processing] (collection s)
                  /\ files s2 = files s).
  { assert (H1 : keeps same_collection (process_ocr_output W (p :: rest)))
      by (apply keeps_process_ocr_output; try apply _;
          intros; apply admits_same_collection).
    assert (H2 : keeps same_files (process_ocr_output W (p :: rest)))
      by (apply keeps_process_ocr_output; try apply _;
          intros; apply admits_same_files).
    specialize (H1 (update_one (doc_id doc) [SetStatus processing] s).2).
    specialize (H2 (update_one (doc_id doc) [SetStatus processing] s).2).
    rewrite He in H1, H2. by split. }
  destruct Hsame as [Hcol Hfil].
  unfold process_document, process_document_steps, try_except. rewrite Hc.
  unfold process_cached, mbind, M_bind.
  change (update_one (doc_id doc) [SetStatus processing] s)
    with (Ok tt, (update_one (doc_id doc) [SetStatus processing] s).2).
  cbv beta iota. rewrite He. cbv beta iota.
  unfold mark_failed, mbind, M_bind, update_one, print, emit. simpl.
  unfold log, set_collection. simpl. rewrite Hcol, Hfil.
  f_equal. f_equal. by rewrite <- !app_assoc.
Qed.

(** On the OCR branch a failing correction is caught with the OCR errors:
    the run prints [Document analysis(OCR) failed], marks the record [failed],
    removes the temporary file and does not store the OCR output it had
    obtained. *)
Theorem correction_failure_on_ocr_branch (W : World) (doc : document) (s s6 : state)
    (url : string) (response : http_response) (pages : list ocr_page) (e : exn) :
  doc_ocr_output doc = None \/ doc_ocr_output doc = Some [] ->
  doc_image doc = Some url ->
  http_get W (count is_http_get (trace s)) url = inr response ->
  200 <= status_code response <= 299 ->
  file_write W (count is_file_write (trace s)) (temp_path W url) = WriteOk ->
  ocr_service W (count is_analyze (trace s)) (content response) = inr pages ->
  pages <> [] ->
  process_ocr_output W (map page_entry pages) (after_ocr W doc url response s)
  = (Raise e, s6) ->
  process_document W doc s
  = (Ok tt,
     {| collection :=
          store_update (doc_id doc) [SetStatus failed]
            (store_update (doc_id doc) [SetStatus processing] (collection s));
        files := delete (temp_path W url)
                   (<[temp_path W url := content response]> (files s));
        trace :=
          trace s6 ++
            [ EvPrint ("Document analysis(OCR) failed for the document "
                         +:+ oid_str (doc_id doc) +:+ ": " +:+ exn_str e);
              EvUpdateOne (doc_id doc) [SetStatus failed];
              EvRemove (temp_path W url) ] |}).
Proof.
  intros Hc Hi Hh Hs Hw Ho Hne He.
  assert (Hsame : collection s6 = collection (after_ocr W doc url response s)
                  /\ files s6 = files (after_ocr W doc url response s)).
  { assert (H1 : keeps same_collection (process_ocr_output W (map page_entry pages)))
      by (apply keeps_process_ocr_output; try apply _;
          intros; apply admits_same_collection).
    assert (H2 : keeps same_files (process_ocr_output W (map page_entry pages)))
      by (apply keeps_process_ocr_output; try apply _;
          intros; apply admits_same_files).
    specialize (H1 (after_ocr W doc url response s)).
    specialize (H2 (after_ocr W doc url response s)).
    rewrite He in H1, H2. by split. }
  destruct Hsame as [Hcol Hfil].
  rewrite (process_document_downloaded W doc s url response Hc Hi Hh Hs Hw).
  unfold try_except at 1, mbind at 1, M_bind at 1.
  unfold ocr_and_correct, try_finally, ocr_attempt, try_except at 1,
    mbind at 1, M_bind at 1.
  unfold analyze_document, try_except at 1, mbind at 1, M_bind at 1,
    mbind at 1, M_bind at 1, read_file.
  rewrite (after_download_file W doc s url response).
  unfold begin_analyze_document.
  rewrite (after_download_analyze_count W doc s url response), Ho.
  destruct pages as [|p0 ps]; [done|].
  cbv beta iota.
  unfold mret at 1, M_ret at 1.
  fold (after_ocr W doc url response s).
  change (map page_entry (p0 :: ps)) with (page_entry p0 :: map page_entry ps) in *.
  cbv beta iota.
  unfold mbind at 1, M_bind at 1. rewrite He. cbv beta iota.
  unfold mbind, M_bind, print, emit, update_one. cbn [fst snd].
  unfold os_remove, mret, M_ret. cbv beta iota.
  unfold log, set_files, set_collection. cbn [files collection trace].
  rewrite Hfil, Hcol.
  unfold after_ocr, after_download, update_one, log, set_files, set_collection.
  cbn [files collection trace fst snd].
  rewrite lookup_insert_eq. cbv beta iota.
  unfold mret, M_ret.
  f_equal. f_equal. by rewrite <- !app_assoc.
Qed.

(** ** The further properties at sample inputs *)

Lemma pass_over_mixed_store :
  NoDup (map doc_id (collection mixed_store)) /\
  Forall2
    (fun d d' =>
       (doc_status_of d = processed -> d' = d) /\
       (doc_status_of d' = processed \/ doc_status_of d' = failed))
    (collection mixed_store) (collection (process_documents fine_world mixed_store).2).
Proof.
  assert (H : NoDup (map doc_id (collection mixed_store))).
  { refine (bool_decide_unpack _ _). vm_compute. exact I. }
  split; [exact H|].
  exact (pass_leaves_processed_records_alone fine_world mixed_store H).
Defined.

Lemma processed_cached_record_is_complete :
  exists d',
    store_find_one (doc_id cached_doc)
      (collection (process_document fine_world cached_doc (store_of [cached_doc])).2)
    = Some d' /\
    doc_status_of d' = processed /\
    exists o j iso fa fr,
      doc_ocr_output d' = Some o /\ o <> [] /\
      doc_json_data d' = Some j /\ Forall2 same_page_key o j /\
      doc_processed_date d' = Some iso /\
      doc_final_assignment d' = Some fa /\
      doc_final_release d' = Some fr.
Proof.
  eexists. split; [vm_compute; reflexivity|]. split; [reflexivity|].
  apply (processed_record_is_complete fine_world cached_doc (store_of [cached_doc]));
    vm_compute; reflexivity.
Defined.

Lemma failed_ocr_run_writes_no_metadata :
  exists d',
    store_find_one (doc_id fresh_doc)
      (collection (process_document ocr_down_world fresh_doc (store_of [fresh_doc])).2)
    = Some d' /\
    doc_status_of d' = failed /\
    doc_processed_date d' = doc_processed_date fresh_doc /\
    doc_final_assignment d' = doc_final_assignment fresh_doc /\
    doc_final_release d' = doc_final_release fresh_doc.
Proof.
  eexists. split; [vm_compute; reflexivity|]. split; [reflexivity|].
  apply (failed_run_writes_no_metadata ocr_down_world fresh_doc (store_of [fresh_doc]));
    vm_compute; reflexivity.
Defined.


Lemma correction_stops_when_service_is_down :
  exists e s',
    process_ocr_output outage_world [[("0", "raw text")]; [("1", "more")]] (store_of [])
    = (Raise e, s') /\
    collection s' = [] /\ files s' = ∅.
Proof.
  eexists. eexists.
  assert (H : process_ocr_output outage_world [[("0", "raw text")]; [("1", "more")]]
                (store_of [])
              = (Raise (Exn OpenAIError "Connection error."),
                 log (EvPrint "Error fetching response from OpenAI: Connection error.")
                   (log (EvCompletion (correction_messages "raw text")) (store_of []))))
    by (vm_compute; reflexivity).
  split; [exact H|].
  destruct (process_ocr_output_stops_at_first_failure outage_world
              [[("0", "raw text")]; [("1", "more")]] (store_of []) _ _ H)
    as (Hcol & Hfil & _).
  split; [exact Hcol | exact Hfil].
Defined.

Lemma analyze_with_service_down :
  exists e s',
    analyze_document ocr_down_world "/tmp/doc.png" downloaded_state = (Raise e, s') /\
    collection s' = collection downloaded_state /\ files s' = files downloaded_state.
Proof.
  eexists. eexists.
  assert (H : analyze_document ocr_down_world "/tmp/doc.png" downloaded_state
              = (Raise (Exn OcrServiceError "Service unavailable"),
                 log (EvPrint "Error during document analysis: Service unavailable")
                   (log (EvAnalyze "%PDF-1.4")
                      (log (EvFileRead "/tmp/doc.png") downloaded_state))))
    by (vm_compute; reflexivity).
  split; [exact H|].
  destruct (analyze_document_failure ocr_down_world "/tmp/doc.png" downloaded_state _ _ H)
    as (Hcol & Hfil & _).
  split; [exact Hcol | exact Hfil].
Defined.


Lemma metadata_of_record_with_empty_page :
  get_metadata json_world (doc_id cached_doc) final_release_fields
    (store_of [corrected_doc [[("0", "clean text")]; []]])
  = (Raise (Exn IndexError "list index out of range"),
     log (EvFindOne (doc_id cached_doc))
       (store_of [corrected_doc [[("0", "clean text")]; []]])).
Proof.
  apply (get_metadata_empty_page json_world (doc_id cached_doc) final_release_fields
           (store_of [corrected_doc [[("0", "clean text")]; []]])
           (corrected_doc [[("0", "clean text")]; []])
           [[("0", "clean text")]; []] eq_refl eq_refl).
  refine (bool_decide_unpack _ _). vm_compute. exact I.
Defined.

Lemma run_on_record_without_image :
  process_document fine_world bare_doc (store_of [bare_doc])
  = (Ok tt, failed_run bare_doc (store_of [bare_doc]) [] "'image'" ∅).
Proof.
  exact (run_without_image fine_world bare_doc (store_of [bare_doc])
           (or_introl eq_refl) eq_refl).
Defined.

Lemma run_with_missing_image_file :
  process_document (download_world (inr not_found_response) WriteOk) fresh_doc
    (store_of [fresh_doc])
  = (Ok tt,
     failed_run fresh_doc (store_of [fresh_doc]) [EvHttpGet "http://x/doc.png"]
       "Client error '404 Not Found' for url 'http://x/doc.png'" ∅).
Proof.
  apply (run_with_failed_download (download_world (inr not_found_response) WriteOk)
           fresh_doc (store_of [fresh_doc]) (or_introl eq_refl)
           "http://x/doc.png"
           "Client error '404 Not Found' for url 'http://x/doc.png'" eq_refl).
  right. exists not_found_response.
  split; [reflexivity|]. split; [simpl; lia | reflexivity].
Defined.

Lemma run_with_full_disk :
  process_document
    (download_world (inr sample_response)
       (WriteFails "[Errno 28] No space left on device"))
    fresh_doc (store_of [fresh_doc])
  = (Ok tt,
     failed_run fresh_doc (store_of [fresh_doc])
       [EvHttpGet "http://x/doc.png"; EvFileWrite "/tmp/doc.png"]
       "[Errno 28] No space left on device"
       {["/tmp/doc.png" := EmptyString]}).
Proof.
  assert (Hs : 200 <= status_code sample_response <= 299) by (simpl; lia).
  etrans.
  - exact (run_with_failed_write
             (download_world (inr sample_response)
                (WriteFails "[Errno 28] No space left on device"))
             fresh_doc (store_of [fresh_doc]) (or_introl eq_refl)
             "http://x/doc.png" sample_response
             "[Errno 28] No space left on device" eq_refl eq_refl Hs
             (or_intror eq_refl)).
  - vm_compute. reflexivity.
Defined.

Lemma cached_run_with_service_down :
  exists e s2,
    process_ocr_output outage_world [[("0", "raw text")]]
      (update_one (doc_id cached_doc) [SetStatus processing] (store_of [cached_doc])).2
    = (Raise e, s2) /\
    collection (process_document outage_world cached_doc (store_of [cached_doc])).2
    = [apply_set cached_doc (SetStatus failed)].
Proof.
  eexists. eexists.
  assert (H : process_ocr_output outage_world [[("0", "raw text")]]
                (update_one (doc_id cached_doc) [SetStatus processing]
                   (store_of [cached_doc])).2
              = (Raise (Exn OpenAIError "Connection error."),
                 (process_ocr_output outage_world [[("0", "raw text")]]
                    (update_one (doc_id cached_doc) [SetStatus processing]
                       (store_of [cached_doc])).2).2))
    by (vm_compute; reflexivity).
  split; [exact H|].
  rewrite (correction_failure_on_cached_branch outage_world cached_doc
             (store_of [cached_doc]) _ [("0", "raw text")] [] _ eq_refl H).
  vm_compute. reflexivity.
Defined.

Lemma ocr_run_with_completion_down :
  exists e s6,
    process_ocr_output outage_world (map page_entry one_page)
      (after_ocr outage_world fresh_doc "http://x/doc.png" sample_response
         (store_of [fresh_doc]))
    = (Raise e, s6) /\
    collection (process_document outage_world fresh_doc (store_of [fresh_doc])).2
    = [apply_set fresh_doc (SetStatus failed)] /\
    files (process_document outage_world fresh_doc (store_of [fresh_doc])).2 = ∅.
Proof.
  eexists. eexists.
  assert (Hs : 200 <= status_code sample_response <= 299) by (simpl; lia).
  assert (Hne : one_page <> []) by discriminate.
  assert (H : process_ocr_output outage_world (map page_entry one_page)
                (after_ocr outage_world fresh_doc "http://x/doc.png" sample_response
                   (store_of [fresh_doc]))
              = (Raise (Exn OpenAIError "Connection error."),
                 (process_ocr_output outage_world (map page_entry one_page)
                    (after_ocr outage_world fresh_doc "http://x/doc.png" sample_response
                       (store_of [fresh_doc]))).2))
    by (vm_compute; reflexivity).
  split; [exact H|].
  rewrite (correction_failure_on_ocr_branch outage_world fresh_doc
             (store_of [fresh_doc]) _ "http://x/doc.png" sample_response one_page _
             (or_introl eq_refl) eq_refl eq_refl Hs eq_refl eq_refl Hne H).
  split; vm_compute; reflexivity.
Defined.

(** ** An outage of the completion service *)

Lemma at_status_same_collection d0 id s s' :
  same_collection s s' -> at_status d0 id s -> at_status d0 id s'.
Proof. unfold same_collection, at_status. by intros ->. Qed.

Lemma at_status_update d0 id st s :
  at_status d0 id s ->
  store_find_one id (collection (update_one id [SetStatus st] s).2)
  = Some (apply_set d0 (SetStatus st)).
Proof.
  intros [st0 H]. simpl. by rewrite store_find_one_update, H.
Qed.

Section Outage.

Variable W : World.
Hypothesis down : forall n messages, exists msg, completion W n messages = inl msg.

Lemma process_ocr_output_outage p l s :
  exists e s',
    process_ocr_output W (p :: l) s = (Raise e, s') /\ collection s' = collection s.
Proof.
  assert (Hk : keeps same_collection (process_ocr_output W (p :: l)))
    by (apply keeps_process_ocr_output; try apply _;
        intros; apply admits_same_collection).
  specialize (Hk s).
  destruct (process_ocr_output W (p :: l) s) as [[out|e] s'] eqn:E.
  - exfalso. rewrite process_ocr_output_is_the_loop in E.
    apply correct_pages_results in E as (vs & rs & Hvs & _ & _ & _ & _ & _ & Hidx).
    destruct p as [|[k v] rest]; [done|].
    destruct (Hidx 0%nat k v rest eq_refl) as (text & Hc & _).
    destruct (down (count is_completion (trace s) + 0)%nat (correction_messages v))
      as [msg Hm].
    congruence.
  - by exists e, s'.
Qed.

Variables (doc : document) (d0 : document).

Lemma failed_handler_stops text s :
  at_status d0 (doc_id doc) s ->
  wp (print text;; update_one (doc_id doc) [SetStatus failed];; mret Returned)
    (stopped d0 (doc_id doc)) s.
Proof.
  intros H. unfold wp, mbind, M_bind, print, emit. cbn [fst snd].
  change (update_one (doc_id doc) [SetStatus failed] (log (EvPrint text) s))
    with (Ok tt, (update_one (doc_id doc) [SetStatus failed] (log (EvPrint text) s)).2).
  cbv beta iota. unfold stopped. cbn [fst snd mret M_ret].
  apply at_status_update. by eapply at_status_same_collection; [|exact H].
Qed.

Lemma ocr_attempt_outage path s :
  at_status d0 (doc_id doc) s ->
  wp (ocr_attempt W doc path) (stopped d0 (doc_id doc)) s.
Proof.
  intros H. unfold ocr_attempt. apply wp_try_except. apply wp_bind.
  apply (wp_keeps same_collection).
  { apply keeps_analyze_document; try apply _; intros; apply admits_same_collection. }
  intros [extracted|e] s1 H1.
  - assert (Hs1 : at_status d0 (doc_id doc) s1) by (by eapply at_status_same_collection).
    destruct extracted as [|p l].
    + unfold wp, mbind, M_bind, print, emit.
      change (update_one (doc_id doc) [SetStatus failed] s1)
        with (Ok tt, (update_one (doc_id doc) [SetStatus failed] s1).2).
      cbv beta iota. cbn [fst snd mret M_ret]. unfold stopped.
      change (collection (log ?ev ?st)) with (collection st).
      by apply at_status_update.
    + destruct (process_ocr_output_outage p l s1) as (e & s2 & E & Hcol).
      match goal with
      | |- wp ?m _ _ =>
          assert (Eb : m s1 = (Raise e, s2))
            by (unfold mbind at 1, M_bind at 1; by rewrite E)
      end.
      unfold wp. rewrite Eb. cbn [fst snd].
      apply failed_handler_stops. by eapply at_status_same_collection; [exact Hcol|].
  - apply failed_handler_stops. by eapply at_status_same_collection.
Qed.

Lemma at_status_of_failed s :
  store_find_one (doc_id doc) (collection s) = Some (apply_set d0 (SetStatus failed)) ->
  at_status d0 (doc_id doc) s.
Proof. intros H. by exists failed. Qed.

Lemma ocr_and_correct_outage path s :
  at_status d0 (doc_id doc) s ->
  wp (ocr_and_correct W doc path) (stopped d0 (doc_id doc)) s.
Proof.
  intros H. unfold ocr_and_correct. apply wp_try_finally.
  eapply wp_mono; [by apply ocr_attempt_outage|].
  intros r s1 Hr. apply (wp_keeps same_collection).
  - apply keeps_same_collection_os_remove.
  - intros [u|e] s2 Hsame.
    + destruct r as [[]|e]; unfold stopped in *; try done.
      * unfold same_collection in Hsame. by rewrite Hsame.
      * by eapply at_status_same_collection.
    + unfold stopped in *. eapply at_status_same_collection; [exact Hsame|].
      destruct r as [[]|e']; [done|by apply at_status_of_failed|done].
Qed.

Lemma process_uncached_outage s :
  at_status d0 (doc_id doc) s ->
  wp (process_uncached W doc) (stopped d0 (doc_id doc)) s.
Proof.
  intros H. unfold process_uncached.
  apply wp_bind. apply (wp_keeps same_collection).
  { apply keeps_doc_getitem_image; try apply _; intros; apply admits_same_collection. }
  intros r s1 H1. apply (at_status_same_collection d0 (doc_id doc) _ _ H1) in H.
  destruct r as [image|e]; [|exact H].
  apply wp_bind. apply (wp_keeps same_collection).
  { apply keeps_httpx_get; try apply _; intros; apply admits_same_collection. }
  intros r s2 H2. apply (at_status_same_collection d0 (doc_id doc) _ _ H2) in H.
  destruct r as [response|e]; [|exact H].
  apply wp_bind. apply (wp_keeps same_collection).
  { apply keeps_raise_for_status; try apply _; intros; apply admits_same_collection. }
  intros r s3 H3. apply (at_status_same_collection d0 (doc_id doc) _ _ H3) in H.
  destruct r as [u|e]; [|exact H].
  apply wp_bind. apply (wp_keeps same_collection).
  { apply keeps_same_collection_write_file. }
  intros r s4 H4. apply (at_status_same_collection d0 (doc_id doc) _ _ H4) in H.
  destruct r as [u'|e]; [|exact H].
  by apply ocr_and_correct_outage.
Qed.

Lemma process_document_outage s :
  store_find_one (doc_id doc) (collection s) = Some d0 ->
  store_find_one (doc_id doc) (collection (process_document W doc s).2)
  = Some (apply_set d0 (SetStatus failed)).
Proof.
  intros Hd.
  change (wp (process_document W doc)
            (fun _ s' => store_find_one (doc_id doc) (collection s')
                         = Some (apply_set d0 (SetStatus failed))) s).
  assert (Hfail : forall e s', at_status d0 (doc_id doc) s' ->
            wp (mark_failed doc e)
              (fun _ s'' => store_find_one (doc_id doc) (collection s'')
                            = Some (apply_set d0 (SetStatus failed))) s').
  { intros e s' H'. unfold wp, mark_failed, mbind, M_bind, print, emit. cbn [fst snd].
    apply at_status_update. by eapply at_status_same_collection; [|exact H']. }
  unfold process_document. apply wp_try_except.
  apply wp_bind. unfold wp at 1.
  change (update_one (doc_id doc) [SetStatus processing] s)
    with (Ok tt, (update_one (doc_id doc) [SetStatus processing] s).2).
  cbn [fst snd].
  assert (H1 : at_status d0 (doc_id doc)
                 (update_one (doc_id doc) [SetStatus processing] s).2).
  { exists processing. simpl. rewrite store_find_one_update, Hd. reflexivity. }
  revert H1. generalize (update_one (doc_id doc) [SetStatus processing] s).2.
  intros s1 H1. unfold process_document_steps. apply wp_bind.
  eapply wp_mono with (Q := stopped d0 (doc_id doc)).
  - destruct (doc_ocr_output doc) as [[|p rest]|].
    + by apply process_uncached_outage.
    + destruct (process_ocr_output_outage p rest s1) as (e & s2 & E & Hcol).
      unfold wp, process_cached, mbind, M_bind. rewrite E. cbn [fst snd]. unfold stopped.
      by eapply at_status_same_collection; [exact Hcol|].
    + by apply process_uncached_outage.
  - intros [[]|e] s2 Hs; unfold stopped in Hs; [done| |by apply Hfail].
    by unfold wp.
Qed.

End Outage.

(** While the completion service is down, a run of [process_document]
    changes nothing of its record but the status, which ends [failed]:
    even when OCR succeeded, its output is not stored. *)
Theorem completion_outage_fails_the_run (W : World) (doc : document) (s : state)
    (d0 : document) :
  (forall n messages, exists msg, completion W n messages = inl msg) ->
  store_find_one (doc_id doc) (collection s) = Some d0 ->
  store_find_one (doc_id doc) (collection (process_document W doc s).2)
  = Some (apply_set d0 (SetStatus failed)).
Proof.
  intros Hdown Hd. by apply (process_document_outage W Hdown doc d0 s).
Qed.

Lemma fresh_record_during_outage :
  store_find_one (doc_id fresh_doc)
    (collection (process_document outage_world fresh_doc (store_of [fresh_doc])).2)
  = Some (apply_set fresh_doc (SetStatus failed)).
Proof.
  apply (completion_outage_fails_the_run outage_world fresh_doc (store_of [fresh_doc])).
  - intros n messages. exists "Connection error.". reflexivity.
  - reflexivity.
Defined.

(** ** The retry is bounded *)

Lemma tries_refl sch n s : tries sch n s s.
Proof. exists []. rewrite app_nil_r. split; [done|]. unfold count. simpl. lia. Qed.

Lemma tries_trans sch n k s s' s'' :
  tries sch n s s' -> tries sch k s' s'' -> tries sch (n + k) s s''.
Proof.
  intros (t1 & E1 & H1) (t2 & E2 & H2). exists (t1 ++ t2).
  split; [by rewrite E2, E1, app_assoc|]. rewrite count_app. lia.
Qed.

Lemma tries_mono sch n k s s' : (n <= k)%nat -> tries sch n s s' -> tries sch k s s'.
Proof. intros Hle (t & E & H). exists t. split; [done|lia]. Qed.

Lemma keeps_tries_mono {A} sch n k (m : M A) :
  keeps (tries sch n) m -> (n <= k)%nat -> keeps (tries sch k) m.
Proof. intros H Hle s. by eapply tries_mono; [|apply H]. Qed.

Lemma keeps_tries_zero {A} sch (m : M A) :
  keeps (emits (not_extract sch)) m -> keeps (tries sch 0) m.
Proof.
  intros H s. destruct (H s) as (t & E & Ht). exists t. split; [done|].
  rewrite (count_none _ _ _ Ht); [lia|done].
Qed.

Lemma keeps_tries_ret {A} sch (a : A) : keeps (tries sch 0) (mret a).
Proof. intros s. apply tries_refl. Qed.

Lemma keeps_tries_print sch text : keeps (tries sch 0) (print text).
Proof.
  apply keeps_tries_zero. intros s. exists [EvPrint text]. split; [done|].
  by constructor.
Qed.

Lemma keeps_tries_bind {A B} sch n k (m : M A) (f : A -> M B) :
  keeps (tries sch n) m -> (forall a, keeps (tries sch k) (f a)) ->
  keeps (tries sch (n + k)) (m ≫= f).
Proof.
  intros Hm Hf s. specialize (Hm s). unfold mbind, M_bind.
  destruct (m s) as [[a|e] s']; simpl in *.
  - eapply tries_trans; [exact Hm | apply Hf].
  - eapply tries_mono; [|exact Hm]. lia.
Qed.

Lemma keeps_tries_try_except {A} sch n k (body : M A) handler :
  keeps (tries sch n) body -> (forall e, keeps (tries sch k) (handler e)) ->
  keeps (tries sch (n + k)) (try_except body handler).
Proof.
  intros Hm Hk s. specialize (Hm s). unfold try_except.
  destruct (body s) as [[a|e] s']; simpl in *.
  - eapply tries_mono; [|exact Hm]. lia.
  - eapply tries_trans; [exact Hm | apply Hk].
Qed.

Lemma extract_with_retry_tries sch c (call : M value) name object_id :
  keeps (tries sch c) call ->
  keeps (tries sch (c + c)) (extract_with_retry call name object_id).
Proof.
  intros H. unfold extract_with_retry.
  eapply keeps_tries_mono.
  - apply keeps_tries_try_except.
    + apply keeps_tries_bind; [exact H | intros v; apply keeps_tries_ret].
    + intros e. apply keeps_tries_bind; [apply keeps_tries_print|intros _].
      apply keeps_tries_try_except.
      * apply keeps_tries_bind; [exact H | intros v; apply keeps_tries_ret].
      * intros e'. apply keeps_tries_bind; [apply keeps_tries_print|intros _].
        apply keeps_tries_ret.
  - lia.
Qed.

Lemma get_metadata_tries W sch object_id fields :
  keeps (tries sch 0) (get_metadata W object_id fields).
Proof. apply keeps_tries_zero, get_metadata_no_extract. Qed.

Lemma adapter_tries W sch sch' object_id :
  keeps (tries sch (weight sch sch'))
    (match sch' with
     | Assignment => get_metadata_for_final_assignment W object_id
     | Release => get_metadata_for_final_release W object_id
     end).
Proof.
  assert (He : keeps (tries sch (weight sch sch')) (emit (EvExtract sch'))).
  { intros s. exists [EvExtract sch']. split; [done|].
    unfold weight, count. simpl. by destruct sch, sch'. }
  eapply keeps_tries_mono.
  - destruct sch'; unfold get_metadata_for_final_assignment,
      get_metadata_for_final_release;
      (apply keeps_tries_bind; [exact He | intros _; apply get_metadata_tries]).
  - lia.
Qed.

Lemma extract_and_finish_tries W sch doc :
  keeps (tries sch 2) (extract_and_finish W doc).
Proof.
  unfold extract_and_finish. eapply keeps_tries_mono.
  - apply keeps_tries_bind.
    { apply keeps_tries_zero, keeps_now_isoformat; try apply _;
        intros; by apply admits_emits. }
    intros iso. apply keeps_tries_bind.
    { apply extract_with_retry_tries, (adapter_tries W sch Assignment). }
    intros fa. apply keeps_tries_bind.
    { apply extract_with_retry_tries, (adapter_tries W sch Release). }
    intros fr. apply keeps_tries_bind.
    { apply keeps_tries_zero, keeps_read_local; try apply _;
        intros; by apply admits_emits. }
    intros frv. apply keeps_tries_bind.
    { apply keeps_tries_zero, keeps_read_local; try apply _;
        intros; by apply admits_emits. }
    intros fav. apply keeps_tries_zero. by apply keeps_emits_update_one.
  - unfold weight. destruct sch; simpl; lia.
Qed.

Lemma before_extraction_tries W sch doc :
  keeps (tries sch 0)
    (match doc_ocr_output doc with
     | Some (p :: rest) => process_cached W doc (p :: rest)
     | _ => process_uncached W doc
     end).
Proof.
  assert (Hc : forall l, keeps (emits (not_extract sch)) (process_cached W doc l)).
  { intros l. apply keeps_process_cached; [apply _|by intros; apply admits_emits|].
    split; [by intros; apply admits_emits | by intros; apply keeps_emits_update_one]. }
  assert (Hu : keeps (emits (not_extract sch)) (process_uncached W doc)).
  { apply keeps_process_uncached; try apply _; try done;
      first [ by intros; apply admits_emits
            | by intros; apply keeps_emits_update_one
            | by intros; apply keeps_emits_write_file
            | by intros; apply keeps_emits_os_remove ]. }
  apply keeps_tries_zero.
  destruct (doc_ocr_output doc) as [[|p rest]|]; [exact Hu | apply Hc | exact Hu].
Qed.

(** In one run of [process_document] the extraction adapter is entered
    at most twice for each of the two schemas, whatever the services
    answer: one attempt and at most one retry. *)
Theorem each_schema_is_tried_at_most_twice (W : World) (doc : document) (s : state)
    (sch : schema) :
  exists t,
    trace (process_document W doc s).2 = trace s ++ t /\
    (count (is_extract sch) t <= 2)%nat.
Proof.
  assert (H : keeps (tries sch 2) (process_document W doc)); [|exact (H s)].
  unfold process_document. eapply keeps_tries_mono.
  - apply keeps_tries_try_except.
    + apply keeps_tries_bind.
      { apply keeps_tries_zero. by apply keeps_emits_update_one. }
      intros _. unfold process_document_steps. apply keeps_tries_bind.
      { apply before_extraction_tries. }
      intros [|].
      * apply extract_and_finish_tries.
      * eapply keeps_tries_mono; [apply keeps_tries_ret|lia].
    + intros e. apply keeps_tries_zero.
      apply keeps_mark_failed; [apply _|by intros; apply admits_emits|].
      by apply keeps_emits_update_one.
  - lia.
Qed.
